(** * awesome-be: connection routing and health-check orchestration

    A shallow embedding of [internal/database] (database.go, manager.go)
    and [internal/health] (health.go), followed by the properties of the
    routing layer and of the health fan-out.

    Conventions of the embedding:
    - a Go [error] is represented by the text of its [Error()] method;
      [None : option string] is the [nil] error;
    - a Go pointer that may be [nil] is an [option];
    - a run-time panic is an explicit outcome, never a missing case;
    - the objects the code mutates through pointers (the [sql.DB] pools,
      the logger, the health manager, standard output) live in an
      explicit [Runtime] that every operation threads. *)

From Stdlib Require Import NArith ZArith Lia Ascii.
From stdpp Require Import gmap strings list fin_maps pretty.

Local Open Scope string_scope.

(** ** Package [context] (standard library, only what the code uses) *)

Module context.

Inductive Context : Type :=
| Background
| Request (id : N)
| WithTimeout (parent : Context) (timeout : Z).

End context.

(** ** Go machine integers *)

Module uint32.

Definition modulus : N := 2 ^ 32.

(** Conversion [uint32(x)] of a non-negative integer. *)
Definition of_N (x : N) : N := (x mod modulus)%N.

(** [atomic.Uint32.Add]: wrap-around addition, returns the new value. *)
Definition Add (x delta : N) : N := of_N (x + delta).

End uint32.

(** ** Outcomes of a call: normal return or run-time panic *)

Inductive outcome (A : Type) : Type :=
| Returned (a : A)
| Panicked.
Arguments Returned {A} a.
Arguments Panicked {A}.

(** ** [gorm.DB] and [sql.DB] (external libraries, only what the code uses)

    A [*gorm.DB] is a session over a connection pool; [WithContext] opens a
    new session over the same pool.  A pool is named by its identity. *)

Module gorm.

Definition PoolId : Type := N.

Record DB : Type := mkDB {
  ConnPool : PoolId;
  Ctx : context.Context;
}.

Definition WithContext (db : DB) (ctx : context.Context) : DB :=
  {| ConnPool := ConnPool db; Ctx := ctx |}.

Inductive Dialector : Type :=
| mysql_Open (dsn : string)
| postgres_Open (dsn : string)
| sqlite_Open (dsn : string).

End gorm.

(** The log levels of [gorm.io/gorm/logger] ([Silent] is [iota + 1]). *)
Module gormlogger.

Definition LogLevel : Type := Z.
Definition Silent : LogLevel := 1%Z.
Definition Error : LogLevel := 2%Z.
Definition Warn : LogLevel := 3%Z.
Definition Info : LogLevel := 4%Z.

End gormlogger.

(** ** Package [config] (the structs the core consumes) *)

Module config.

Record DBInstanceConfig : Type := mkDBInstanceConfig {
  Host : string;
  Port : Z;
  Username : string;
  Password : string;
  Database : string;
  Charset : string;
  ParseTime : bool;
  Loc : string;
  SSLMode : string;
}.

Record DatabaseConfig : Type := mkDatabaseConfig {
  Name : string;
  Type_ : string;
  MaxIdleConns : Z;
  MaxOpenConns : Z;
  ConnMaxLifetime : Z;
  ConnMaxIdleTime : Z;
  LogLevel : string;
  SlowThreshold : Z;
  Master : DBInstanceConfig;
  Slaves : list DBInstanceConfig;
}.

Record HealthConfig : Type := mkHealthConfig {
  Timeout : Z;
  Detailed : bool;
}.

(** [RedisConfig], the fields the core consumes. *)
Module RedisConfig.

Record t : Type := mk {
  Name : string;
  Mode : string;
  Addr : string;
  MasterName : string;
  SentinelAddrs : list string;
  ClusterAddrs : list string;
  Password : string;
  DB : Z;
  PoolSize : Z;
  MinIdleConns : Z;
  MaxRetries : Z;
  DialTimeout : Z;
  ReadTimeout : Z;
  WriteTimeout : Z;
  PoolTimeout : Z;
  IdleCheckFrequency : Z;
}.

End RedisConfig.

(** The loop of [validateDatabases] (config.go lines 425-441) from index
    [i], with the names seen so far in [names]. *)
Fixpoint validateEach (i : nat) (names : gmap string bool)
    (databases : list DatabaseConfig) : option string :=
  match databases with
  | [] => None
  | db :: rest =>
      if decide (Name db = EmptyString) then
        Some ("databases[" +:+ pretty i +:+ "].name is required")
      else if default false (names !! Name db) then
        Some ("databases[" +:+ pretty i +:+ "].name '" +:+ Name db
              +:+ "' is duplicated")
      else if decide (Type_ db ≠ "mysql" ∧ Type_ db ≠ "postgres"
                      ∧ Type_ db ≠ "sqlite") then
        Some ("databases[" +:+ pretty i
              +:+ "].type must be one of: mysql, postgres, sqlite")
      else validateEach (S i) (<[Name db := true]> names) rest
  end.

(** [func validateDatabases(databases []DatabaseConfig) error] *)
Definition validateDatabases (databases : list DatabaseConfig) : option string :=
  if (length databases =? 0)%nat then None
  else validateEach 0 ∅ databases.


(** A configuration has one of the three supported driver types. *)
Definition supported (db : DatabaseConfig) : Prop :=
  Type_ db = "mysql" ∨ Type_ db = "postgres" ∨ Type_ db = "sqlite".

(** An entry that [validateDatabases] accepts on its own. *)
Definition acceptable (db : DatabaseConfig) : Prop :=
  Name db ≠ EmptyString ∧ supported db.

End config.

(** ** Package [health]: checker registry and concurrent aggregation *)

Module health.

(** The [HealthChecker] interface.  A probe returns its [error]
    ([None] is [nil]) or panics.  What a probe observes of the outside
    world is fixed for the duration of a round, so a probe is a function
    of the context it is given. *)
Module HealthChecker.

Record t : Type := mk {
  Name : string;
  Ping : context.Context → outcome (option string);
  Check : context.Context → outcome (option string);
}.

End HealthChecker.

Record Manager : Type := mkManager {
  checkers : gmap string HealthChecker.t;
  config : config.HealthConfig;
}.

(** [func NewManager(cfg config.HealthConfig) *Manager] *)
Definition NewManager (cfg : config.HealthConfig) : Manager :=
  {| checkers := ∅; config := cfg |}.

(** [func (m *Manager) Register(checker HealthChecker) error]: the
    updated manager and the returned error. *)
Definition Register (m : Manager) (checker : HealthChecker.t)
  : Manager * option string :=
  ({| checkers := <[HealthChecker.Name checker := checker]> (checkers m);
      config := config m |},
   None).

Module CheckResult.

Record t : Type := mk {
  Status : string;
  Message : string;
}.

End CheckResult.

Module HealthStatus.

Record t : Type := mk {
  Status : string;
  Timestamp : string;
  Checks : gmap string CheckResult.t;
}.

End HealthStatus.

(** The critical section of one goroutine of the fan-out (health.go
    lines 121-136 and 182-197), given what the probe did.  The goroutine
    has no [recover]: a panic of the probe ends the process. *)
Definition record (name : string) (err : outcome (option string))
    (status : HealthStatus.t) : outcome HealthStatus.t :=
  match err with
  | Panicked => Panicked
  | Returned (Some msg) =>
      Returned
        {| HealthStatus.Status := "error";
           HealthStatus.Timestamp := HealthStatus.Timestamp status;
           HealthStatus.Checks :=
             <[name := {| CheckResult.Status := "error";
                          CheckResult.Message := msg |}]>
               (HealthStatus.Checks status) |}
  | Returned None =>
      Returned
        {| HealthStatus.Status := HealthStatus.Status status;
           HealthStatus.Timestamp := HealthStatus.Timestamp status;
           HealthStatus.Checks :=
             <[name := {| CheckResult.Status := "ok";
                          CheckResult.Message := EmptyString |}]>
               (HealthStatus.Checks status) |}
  end.

(** The fan-out and the join.  One goroutine per entry of [m.checkers];
    the mutex serialises their critical sections, in an order the
    scheduler chooses: [tasks] lists the entries in that order. *)
Fixpoint fanOut
    (probe : HealthChecker.t → context.Context → outcome (option string))
    (checkCtx : context.Context)
    (tasks : list (string * HealthChecker.t))
    (status : HealthStatus.t) : outcome HealthStatus.t :=
  match tasks with
  | [] => Returned status
  | (name, checker) :: rest =>
      match record name (probe checker checkCtx) status with
      | Returned status' => fanOut probe checkCtx rest status'
      | Panicked => Panicked
      end
  end.

(** The orders in which the goroutines of one round can take the mutex. *)
Definition schedule (m : Manager) (tasks : list (string * HealthChecker.t))
  : Prop :=
  tasks ≡ₚ map_to_list (checkers m).

(** [func (m *Manager) Ping(ctx) *HealthStatus]; [now] is the reading of
    the clock, already formatted. *)
Definition Ping (m : Manager) (ctx : context.Context) (now : string)
    (tasks : list (string * HealthChecker.t)) : outcome HealthStatus.t :=
  let checkCtx := context.WithTimeout ctx (config.Timeout (config m)) in
  let status :=
    {| HealthStatus.Status := "ok"; HealthStatus.Timestamp := now;
       HealthStatus.Checks := ∅ |} in
  if decide (size (checkers m) = 0) then Returned status
  else fanOut HealthChecker.Ping checkCtx tasks status.

(** [func (m *Manager) Check(ctx) *HealthStatus] *)
Definition Check (m : Manager) (ctx : context.Context) (now : string)
    (tasks : list (string * HealthChecker.t)) : outcome HealthStatus.t :=
  let checkCtx := context.WithTimeout ctx (config.Timeout (config m)) in
  let status :=
    {| HealthStatus.Status := "ok"; HealthStatus.Timestamp := now;
       HealthStatus.Checks := ∅ |} in
  if decide (size (checkers m) = 0) then Returned status
  else fanOut HealthChecker.Check checkCtx tasks status.

(** [func getStatusCode(status string) int] *)
Definition getStatusCode (status : string) : Z :=
  if decide (status = "ok") then 200 else 503.

(** The per-checker result the critical section stores for a probe that
    returned. *)
Definition resultOf (err : option string) : CheckResult.t :=
  match err with
  | Some msg => {| CheckResult.Status := "error"; CheckResult.Message := msg |}
  | None => {| CheckResult.Status := "ok"; CheckResult.Message := EmptyString |}
  end.

(** The result stored for checker [c]; meaningful when its probe
    returns. *)
Definition verdict
    (probe : HealthChecker.t → context.Context → outcome (option string))
    (checkCtx : context.Context) (c : HealthChecker.t) : CheckResult.t :=
  match probe c checkCtx with
  | Returned err => resultOf err
  | Panicked => resultOf None
  end.

(** The probe of an entry returns an error / returns [nil]. *)
Definition failing
    (probe : HealthChecker.t → context.Context → outcome (option string))
    (checkCtx : context.Context) (kv : string * HealthChecker.t) : bool :=
  match probe kv.2 checkCtx with
  | Returned (Some _) => true
  | _ => false
  end.

Definition passing
    (probe : HealthChecker.t → context.Context → outcome (option string))
    (checkCtx : context.Context) (kv : string * HealthChecker.t) : bool :=
  match probe kv.2 checkCtx with
  | Returned None => true
  | _ => false
  end.

(** The bounded context of one round (lines 95 and 156). *)
Definition deadline (m : Manager) (ctx : context.Context) : context.Context :=
  context.WithTimeout ctx (config.Timeout (config m)).

(** The manager after the checkers of [l] are registered, in order. *)
Definition registered (m : Manager) (l : list HealthChecker.t) : Manager :=
  foldl (λ m c, (Register m c).1) m l.

(** The body [Ping] and [Check] share, with the probe as a parameter. *)
Definition aggregate
    (probe : HealthChecker.t → context.Context → outcome (option string))
    (m : Manager) (ctx : context.Context) (now : string)
    (tasks : list (string * HealthChecker.t)) : outcome HealthStatus.t :=
  let checkCtx := context.WithTimeout ctx (config.Timeout (config m)) in
  let status :=
    {| HealthStatus.Status := "ok"; HealthStatus.Timestamp := now;
       HealthStatus.Checks := ∅ |} in
  if decide (size (checkers m) = 0) then Returned status
  else fanOut probe checkCtx tasks status.

(** The manager as it would be had the checker named [f] never been
    registered. *)
Definition without (f : string) (m : Manager) : Manager :=
  {| checkers := delete f (checkers m); config := config m |}.

(** The two kinds of round and what they call. *)
Inductive round : Type := liveness | readiness.

Definition probeOf (k : round)
  : HealthChecker.t → context.Context → outcome (option string) :=
  match k with
  | liveness => HealthChecker.Ping
  | readiness => HealthChecker.Check
  end.

Definition run (k : round)
  : Manager → context.Context → string → list (string * HealthChecker.t) →
    outcome HealthStatus.t :=
  match k with
  | liveness => Ping
  | readiness => Check
  end.

(** Isolation of the task of checker [f] in one aggregation round: the
    round completes, and so does the round without [f], with the same
    result recorded for every other checker. *)
Definition isolated (k : round) (m : Manager) (f : string)
    (ctx : context.Context) (now : string) : Prop :=
  ∀ tasks tasks', schedule m tasks → schedule (without f m) tasks' →
    ∃ st st',
      run k m ctx now tasks = Returned st
      ∧ run k (without f m) ctx now tasks' = Returned st'
      ∧ ∀ n, n ≠ f →
          HealthStatus.Checks st !! n = HealthStatus.Checks st' !! n.

(** Number of entries of a checks map with a given status. *)
Definition countStatus (s : string) (checks : gmap string CheckResult.t) : nat :=
  size (filter (λ kv, CheckResult.Status kv.2 = s) checks).

(** *** The HTTP handlers of the manager

    What [c.JSON(code, body)] writes: the status code, and either the
    [gin.H] with the overall status and the timestamp or the whole
    [HealthStatus]. *)
Inductive Body : Type :=
| Brief (status : string) (timestamp : string)
| Detail (status : HealthStatus.t).

Record Reply : Type := mkReply {
  Code : Z;
  Payload : Body;
}.

(** [func (m *Manager) LivenessHandler(c *gin.Context)]; [ctx] is the
    context of the request. *)
Definition LivenessHandler (m : Manager) (ctx : context.Context) (now : string)
    (tasks : list (string * HealthChecker.t)) : outcome Reply :=
  match Ping m ctx now tasks with
  | Panicked => Panicked
  | Returned status =>
      if negb (config.Detailed (config m)) then
        Returned {| Code := getStatusCode (HealthStatus.Status status);
                    Payload := Brief (HealthStatus.Status status)
                                 (HealthStatus.Timestamp status) |}
      else
        Returned {| Code := getStatusCode (HealthStatus.Status status);
                    Payload := Detail status |}
  end.

(** [func (m *Manager) ReadinessHandler(c *gin.Context)] *)
Definition ReadinessHandler (m : Manager) (ctx : context.Context) (now : string)
    (tasks : list (string * HealthChecker.t)) : outcome Reply :=
  match Check m ctx now tasks with
  | Panicked => Panicked
  | Returned status =>
      if negb (config.Detailed (config m)) then
        Returned {| Code := getStatusCode (HealthStatus.Status status);
                    Payload := Brief (HealthStatus.Status status)
                                 (HealthStatus.Timestamp status) |}
      else
        Returned {| Code := getStatusCode (HealthStatus.Status status);
                    Payload := Detail status |}
  end.

(** The handler of each kind of round. *)
Definition handlerOf (k : round)
  : Manager → context.Context → string → list (string * HealthChecker.t) →
    outcome Reply :=
  match k with
  | liveness => LivenessHandler
  | readiness => ReadinessHandler
  end.

End health.

(** ** Package [database]: the Database struct and its routing methods *)

Module database.

(** *** The world outside the program

    What the drivers and the servers answer.  [None] is success. *)
Record Env : Type := mkEnv {
  gorm_Open : gorm.Dialector → option string;
  gorm_DB : gorm.PoolId → option string;
  sql_PingContext : gorm.PoolId → context.Context → option string;
  gorm_Exec : gorm.PoolId → context.Context → string → option string;
  sql_Close : gorm.PoolId → option string;
  (* what [time.Since(begin)] reads in [Trace] once the statement is
     done, in nanoseconds *)
  time_Since : gorm.PoolId → context.Context → string → Z;
  (* [errors.Is(err, gorm.ErrRecordNotFound)] on the errors of this world *)
  errors_Is_ErrRecordNotFound : string → bool;
}.

(** *** The objects the program mutates *)

(** A [sql.DB], with the four bounds as [database/sql] keeps them:
    [maxIdleCount] is zero for the default and negative for none,
    [maxOpen] is zero for unlimited. *)
Record Pool : Type := mkPool {
  maxIdleCount : Z;
  maxOpen : Z;
  maxLifetime : Z;
  maxIdleTime : Z;
  Closed : bool;
}.

Definition defaultMaxIdleConns : Z := 2%Z.

(** [func (db *DB) maxIdleConnsLocked() int] *)
Definition maxIdleConnsLocked (p : Pool) : Z :=
  if (maxIdleCount p =? 0)%Z then defaultMaxIdleConns
  else if (maxIdleCount p <? 0)%Z then 0
  else maxIdleCount p.

(** [func (db *DB) SetMaxIdleConns(n int)]: a bound that is not positive
    means no idle connection, and the bound never exceeds a positive
    [maxOpen]. *)
Definition SetMaxIdleConns (n : Z) (p : Pool) : Pool :=
  let p1 := {| maxIdleCount := if (0 <? n)%Z then n else -1;
               maxOpen := maxOpen p; maxLifetime := maxLifetime p;
               maxIdleTime := maxIdleTime p; Closed := Closed p |} in
  if (0 <? maxOpen p1)%Z && (maxOpen p1 <? maxIdleConnsLocked p1)%Z
  then {| maxIdleCount := maxOpen p1;
          maxOpen := maxOpen p1; maxLifetime := maxLifetime p1;
          maxIdleTime := maxIdleTime p1; Closed := Closed p1 |}
  else p1.

(** [func (db *DB) SetMaxOpenConns(n int)]: a negative bound is stored as
    zero, and the idle bound is lowered to a positive [maxOpen]. *)
Definition SetMaxOpenConns (n : Z) (p : Pool) : Pool :=
  let p1 := {| maxIdleCount := maxIdleCount p;
               maxOpen := if (n <? 0)%Z then 0 else n;
               maxLifetime := maxLifetime p;
               maxIdleTime := maxIdleTime p; Closed := Closed p |} in
  if (0 <? maxOpen p1)%Z && (maxOpen p1 <? maxIdleConnsLocked p1)%Z
  then SetMaxIdleConns n p1
  else p1.

(** [func (db *DB) SetConnMaxLifetime(d time.Duration)] *)
Definition SetConnMaxLifetime (d : Z) (p : Pool) : Pool :=
  {| maxIdleCount := maxIdleCount p; maxOpen := maxOpen p;
     maxLifetime := if (d <? 0)%Z then 0 else d;
     maxIdleTime := maxIdleTime p; Closed := Closed p |}.

(** [func (db *DB) SetConnMaxIdleTime(d time.Duration)] *)
Definition SetConnMaxIdleTime (d : Z) (p : Pool) : Pool :=
  {| maxIdleCount := maxIdleCount p; maxOpen := maxOpen p;
     maxLifetime := maxLifetime p;
     maxIdleTime := if (d <? 0)%Z then 0 else d; Closed := Closed p |}.

(** The [sql.DB] that [sql.Open] returns. *)
Definition fresh : Pool :=
  {| maxIdleCount := 0%Z; maxOpen := 0%Z; maxLifetime := 0%Z;
     maxIdleTime := 0%Z; Closed := false |}.

Record Runtime : Type := mkRuntime {
  pools : gmap gorm.PoolId Pool;        (* the sql.DB objects opened so far *)
  nextPool : gorm.PoolId;               (* identity of the next pool *)
  warnings : list string;               (* what log.Warn received *)
  stdout : list string;                 (* what fmt.Printf wrote *)
  healthMgr : option health.Manager;    (* the object behind the healthMgr
                                           pointer; None is nil *)
}.

Definition set_pools (rt : Runtime) (f : gmap gorm.PoolId Pool → gmap gorm.PoolId Pool)
  : Runtime :=
  {| pools := f (pools rt); nextPool := nextPool rt; warnings := warnings rt;
     stdout := stdout rt; healthMgr := healthMgr rt |}.

(** *** Calls that may fail or panic, over the runtime *)

Inductive res (A : Type) : Type :=
| Ok (a : A)
| Err (err : string)
| Panic.
Arguments Ok {A} a.
Arguments Err {A} err.
Arguments Panic {A}.

Definition M (A : Type) : Type := Runtime → Runtime * res A.

Definition ret {A} (a : A) : M A := λ rt, (rt, Ok a).

Definition fail {A} (err : string) : M A := λ rt, (rt, Err err).

Definition bind {A B} (m : M A) (k : A → M B) : M B :=
  λ rt,
    match m rt with
    | (rt', Ok a) => k a rt'
    | (rt', Err err) => (rt', Err err)
    | (rt', Panic) => (rt', Panic)
    end.

Notation "'let*' x ':=' m 'in' k" := (bind m (λ x, k))
  (at level 10, x pattern, m at level 100, k at level 200).

(** [fmt.Errorf(prefix + ": %w", err)] on the error path of [m]. *)
Definition wrap {A} (prefix : string) (m : M A) : M A :=
  λ rt,
    match m rt with
    | (rt', Err err) => (rt', Err (prefix +:+ ": " +:+ err))
    | other => other
    end.

(** [gorm.Open]: on success a new pool comes into existence. *)
Definition Open (E : Env) (dialector : gorm.Dialector) : M gorm.DB :=
  λ rt,
    match gorm_Open E dialector with
    | Some err => (rt, Err err)
    | None =>
        let id := nextPool rt in
        ({| pools := <[id := fresh]> (pools rt);
            nextPool := N.succ id; warnings := warnings rt;
            stdout := stdout rt; healthMgr := healthMgr rt |},
         Ok {| gorm.ConnPool := id; gorm.Ctx := context.Background |})
    end.

(** The runtime after a successful [gorm.Open]. *)
Definition opened (rt : Runtime) : Runtime :=
  {| pools := <[nextPool rt := fresh]> (pools rt);
     nextPool := N.succ (nextPool rt); warnings := warnings rt;
     stdout := stdout rt; healthMgr := healthMgr rt |}.

(** [gorm.DB.DB()]: the [*sql.DB] under a handle, named by its pool. *)
Definition DB (E : Env) (db : gorm.DB) : M gorm.PoolId :=
  λ rt,
    match gorm_DB E (gorm.ConnPool db) with
    | Some err => (rt, Err err)
    | None => (rt, Ok (gorm.ConnPool db))
    end.

(** The four setters of lines 61-64 and 79-82, in the order of the
    calls, on one [sql.DB]. *)
Definition bounded (cfg : config.DatabaseConfig) (p : Pool) : Pool :=
  SetConnMaxIdleTime (config.ConnMaxIdleTime cfg)
    (SetConnMaxLifetime (config.ConnMaxLifetime cfg)
       (SetMaxOpenConns (config.MaxOpenConns cfg)
          (SetMaxIdleConns (config.MaxIdleConns cfg) p))).

Definition configurePool (cfg : config.DatabaseConfig) (sqlDB : gorm.PoolId)
  : M unit :=
  λ rt, (set_pools rt (alter (bounded cfg) sqlDB), Ok ()).

(** [sql.DB.Close()]: the pool is closed, the error is returned. *)
Definition sqlClose (E : Env) (sqlDB : gorm.PoolId) : M (option string) :=
  λ rt,
    (set_pools rt
       (alter (λ p, {| maxIdleCount := maxIdleCount p;
                       maxOpen := maxOpen p;
                       maxLifetime := maxLifetime p;
                       maxIdleTime := maxIdleTime p;
                       Closed := true |}) sqlDB),
     Ok (sql_Close E sqlDB)).

(** [log.Warn(msg)] *)
Definition Warn (msg : string) : M unit :=
  λ rt,
    ({| pools := pools rt; nextPool := nextPool rt;
        warnings := warnings rt ++ [msg];
        stdout := stdout rt; healthMgr := healthMgr rt |},
     Ok ()).

(** [log.Error(msg, fields...)] and [log.Debug(msg, fields...)]: of the
    logger the runtime keeps what [log.Warn] received, so the calls of
    the other levels leave it as it is. *)
Definition LogError (msg : string) : M unit := ret ().

Definition LogDebug (msg : string) : M unit := ret ().

(** [fmt.Printf] *)
Definition Printf (msg : string) : M unit :=
  λ rt,
    ({| pools := pools rt; nextPool := nextPool rt; warnings := warnings rt;
        stdout := stdout rt ++ [msg]; healthMgr := healthMgr rt |},
     Ok ()).

(** *** The logger [connect] installs on a handle (gorm_logger.go) *)

Module GormLogger.

(** The adapter without its pointer to the logger, which is the one of
    the runtime. *)
Record t : Type := mk {
  logLevel : gormlogger.LogLevel;
  slowThreshold : Z;
}.

(** [func (l *GormLogger) Trace(ctx, begin, fc, err)], given what
    [time.Since(begin)] reads.  The message of each call is kept, the
    zap fields (elapsed, threshold, sql, rows) are not. *)
Definition Trace (E : Env) (l : t) (elapsed : Z) (err : option string)
  : M unit :=
  if (logLevel l <=? gormlogger.Silent)%Z then ret ()
  else
    if match err with
       | Some e => (gormlogger.Error <=? logLevel l)%Z
                   && negb (errors_Is_ErrRecordNotFound E e)
       | None => false
       end
    then LogError "SQL execution error"
    else if (slowThreshold l <? elapsed)%Z
            && negb (slowThreshold l =? 0)%Z
            && (gormlogger.Warn <=? logLevel l)%Z
    then Warn "Slow SQL query"
    else if (gormlogger.Info <=? logLevel l)%Z
    then LogDebug "SQL execution"
    else ret ().

End GormLogger.

(** [func NewGormLogger(log, level, slowThreshold) *GormLogger] *)
Definition NewGormLogger (level : string) (slowThreshold : Z)
  : GormLogger.t :=
  {| GormLogger.logLevel :=
       if decide (level = "silent") then gormlogger.Silent
       else if decide (level = "error") then gormlogger.Error
       else if decide (level = "warn") then gormlogger.Warn
       else if decide (level = "info") then gormlogger.Info
       else gormlogger.Info;
     GormLogger.slowThreshold := slowThreshold |}.

(** The logger of the handles [connect] returns for a configuration
    (lines 154-156). *)
Definition loggerOf (cfg : config.DatabaseConfig) : GormLogger.t :=
  NewGormLogger (config.LogLevel cfg) (config.SlowThreshold cfg).

(** [db.WithContext(ctx).Exec(sql).Error] on a handle whose logger is
    [l]: gorm runs the statement, hands its error to [Trace] and returns
    it. *)
Definition Exec (E : Env) (l : GormLogger.t) (db : gorm.DB)
    (ctx : context.Context) (sql : string) : M unit :=
  let err := gorm_Exec E (gorm.ConnPool db) ctx sql in
  let* _ := GormLogger.Trace E l
              (time_Since E (gorm.ConnPool db) ctx sql) err in
  match err with
  | Some e => fail e
  | None => ret ()
  end.

(** The runtime after [log.Warn] received [msgs]. *)
Definition warned (msgs : list string) (rt : Runtime) : Runtime :=
  {| pools := pools rt; nextPool := nextPool rt;
     warnings := warnings rt ++ msgs;
     stdout := stdout rt; healthMgr := healthMgr rt |}.

(** [Trace] reports a statement that took [elapsed] as slow, when it
    comes to the second case of its switch. *)
Definition slow (l : GormLogger.t) (elapsed : Z) : bool :=
  (GormLogger.slowThreshold l <? elapsed)%Z
  && negb (GormLogger.slowThreshold l =? 0)%Z
  && (gormlogger.Warn <=? GormLogger.logLevel l)%Z.

(** What the trace of a statement that took [elapsed] and ended in [err]
    passes to [log.Warn]. *)
Definition traced (E : Env) (l : GormLogger.t) (elapsed : Z)
    (err : option string) : list string :=
  if slow l elapsed
     && match err with
        | Some e => errors_Is_ErrRecordNotFound E e
        | None => true
        end
  then ["Slow SQL query"] else [].

(** The number of warnings the verification statement of [New] adds
    when it succeeds on the master pool [id]: one if it is reported as
    slow. *)
Definition verificationWarnings (E : Env) (cfg : config.DatabaseConfig)
    (id : gorm.PoolId) : nat :=
  if slow (loggerOf cfg) (time_Since E id context.Background "SELECT 1")
  then 1 else 0.

Definition fmt_bool (b : bool) : string := if b then "true" else "false".

(** The [switch cfg.Type] of [connect] (lines 121-151): the dialector,
    or the error of the default case. *)
Definition dialectorFor (cfg : config.DatabaseConfig)
    (instance : config.DBInstanceConfig) : gorm.Dialector + string :=
  if decide (config.Type_ cfg = "mysql") then
    inl (gorm.mysql_Open
      (config.Username instance +:+ ":" +:+ config.Password instance
       +:+ "@tcp(" +:+ config.Host instance +:+ ":"
       +:+ pretty (config.Port instance) +:+ ")/"
       +:+ config.Database instance +:+ "?charset=" +:+ config.Charset instance
       +:+ "&parseTime=" +:+ fmt_bool (config.ParseTime instance)
       +:+ "&loc=" +:+ config.Loc instance))
  else if decide (config.Type_ cfg = "postgres") then
    inl (gorm.postgres_Open
      ("host=" +:+ config.Host instance
       +:+ " port=" +:+ pretty (config.Port instance)
       +:+ " user=" +:+ config.Username instance
       +:+ " password=" +:+ config.Password instance
       +:+ " dbname=" +:+ config.Database instance
       +:+ " sslmode=" +:+ config.SSLMode instance))
  else if decide (config.Type_ cfg = "sqlite") then
    inl (gorm.sqlite_Open (config.Database instance))
  else
    inr ("unsupported database type: " +:+ config.Type_ cfg).

(** [func connect(cfg, instance, log)], returning a handle or an error.
    The logger it installs on the handle is [loggerOf cfg]; it comes
    back where a statement is executed on the handle. *)
Definition connect (E : Env) (cfg : config.DatabaseConfig)
    (instance : config.DBInstanceConfig) : M gorm.DB :=
  match dialectorFor cfg instance with
  | inr err => fail err
  | inl dialector => Open E dialector
  end.

(** The error [connect] returns for an endpoint, if any; it does not
    depend on the runtime. *)
Definition connectError (E : Env) (cfg : config.DatabaseConfig)
    (instance : config.DBInstanceConfig) : option string :=
  match dialectorFor cfg instance with
  | inr err => Some err
  | inl dialector => gorm_Open E dialector
  end.

(** The endpoints of a list to which [connect] succeeds. *)
Definition reachable (E : Env) (cfg : config.DatabaseConfig)
    (l : list config.DBInstanceConfig) : list config.DBInstanceConfig :=
  filter (λ s, connectError E cfg s = None) l.

(** The handle a successful [gorm.Open] returns for pool [id]. *)
Definition handle (id : gorm.PoolId) : gorm.DB :=
  {| gorm.ConnPool := id; gorm.Ctx := context.Background |}.

(** The pointer a caller receives with a result: [None] is [nil]. *)
Definition pointer {A} (r : res A) : option A :=
  match r with
  | Ok a => Some a
  | _ => None
  end.

Module Database.

Record t : Type := mk {
  name : string;
  config : config.DatabaseConfig;
  master : gorm.DB;
  slaves : list gorm.DB;
  slaveIndex : N;            (* atomic.Uint32 *)
}.

Definition set_slaveIndex (d : t) (v : N) : t :=
  {| name := name d; config := config d; master := master d;
     slaves := slaves d; slaveIndex := v |}.

(** [func (d *Database) Master(ctx) *gorm.DB] *)
Definition Master (d : t) (ctx : context.Context) : gorm.DB :=
  gorm.WithContext (master d) ctx.

(** Line 190: [index := d.slaveIndex.Add(1) % uint32(len(d.slaves))].
    Returns the updated object and the index, or a panic (integer
    divide by zero) when the converted length is zero. *)
Definition nextIndex (d : t) : t * outcome N :=
  let v := uint32.Add (slaveIndex d) 1 in
  let n := uint32.of_N (N.of_nat (length (slaves d))) in
  (set_slaveIndex d v,
   if (n =? 0)%N then Panicked else Returned (v mod n)%N).

(** [func (d *Database) Slave(ctx) *gorm.DB].  The receiver is a
    pointer: the updated object is returned with the handle. *)
Definition Slave (d : t) (ctx : context.Context) : t * outcome gorm.DB :=
  if (length (slaves d) =? 0)%nat then
    (d, Returned (gorm.WithContext (master d) ctx))
  else
    let '(d', index) := nextIndex d in
    (d',
     match index with
     | Panicked => Panicked
     | Returned i =>
         match slaves d !! N.to_nat i with
         | Some s => Returned (gorm.WithContext s ctx)
         | None => Panicked  (* index out of range *)
         end
     end).

(** [func (d *Database) Name() string] *)
Definition Name (d : t) : string := name d.

(** [if sqlDB, err := x.DB(); err == nil { sqlDB.Close() }]: what
    [sqlDB.Close()] returns is dropped. *)
Definition closeHandle (E : Env) (x : gorm.DB) : M unit :=
  λ rt,
    match DB E x rt with
    | (rt1, Ok sqlDB) =>
        match sqlClose E sqlDB rt1 with
        | (rt2, Panic) => (rt2, Panic)
        | (rt2, _) => (rt2, Ok ())
        end
    | (rt1, Err _) => (rt1, Ok ())
    | (rt1, Panic) => (rt1, Panic)
    end.

Fixpoint closeSlaves (E : Env) (l : list gorm.DB) : M unit :=
  match l with
  | [] => ret ()
  | slave :: rest =>
      let* _ := closeHandle E slave in
      closeSlaves E rest
  end.

(** [func (d *Database) Close() error] *)
Definition Close (E : Env) (d : t) : M (option string) :=
  let* _ := closeHandle E (master d) in
  let* _ := closeSlaves E (slaves d) in
  ret None.

(** *** Sequential use by a single caller *)

(** The object after [n] sequential calls of [Slave]; the [i]-th call
    (counted from 1) is made with context [ctxs i]. *)
Definition after (ctxs : N → context.Context) (d : t) (n : N) : t :=
  N.peano_rect (fun _ => t) d
    (fun i acc => fst (Slave acc (ctxs (N.succ i)))) n.

(** The handle the [i]-th call returns, [i >= 1]. *)
Definition call (ctxs : N → context.Context) (d : t) (i : N)
  : outcome gorm.DB :=
  snd (Slave (after ctxs d (N.pred i)) (ctxs i)).

(** The index of the slave list the [i]-th call selects. *)
Definition selected (ctxs : N → context.Context) (d : t) (i : N)
  : outcome N :=
  snd (nextIndex (after ctxs d (N.pred i))).

(** How many of the calls [1..n] select the slave at index [j]. *)
Definition visits (ctxs : N → context.Context) (d : t) (j : N) (n : N) : N :=
  N.peano_rect (fun _ => N) 0%N
    (fun i acc =>
       match selected ctxs d (N.succ i) with
       | Returned x => if (x =? j)%N then N.succ acc else acc
       | Panicked => acc
       end) n.

Definition slave_count (d : t) : N := N.of_nat (length (slaves d)).

(** Distance from index [j] up to the next multiple of [L]. *)
Definition offset (L j : N) : N := if (j =? 0)%N then 0%N else (L - j)%N.

(** Round-robin service over [k] rounds: each index of the slave list
    is selected exactly [k] times among the first [k * N] calls, every
    call returns the selected slave bound to the caller's context, and
    consecutive calls select cyclically consecutive indices. *)
Definition round_robin (ctxs : N → context.Context) (d : t) (k : N) : Prop :=
  (∀ j, (j < slave_count d)%N → visits ctxs d j (k * slave_count d) = k)
  ∧ (∀ i, (1 ≤ i ≤ k * slave_count d)%N →
       ∃ x s, selected ctxs d i = Returned x
              ∧ slaves d !! N.to_nat x = Some s
              ∧ call ctxs d i = Returned (gorm.WithContext s (ctxs i)))
  ∧ (∀ i x, (1 ≤ i < k * slave_count d)%N →
       selected ctxs d i = Returned x →
       selected ctxs d (i + 1) = Returned ((x + 1) mod slave_count d)%N).

End Database.

(** *** The health checker of a database *)

Module DatabaseHealthChecker.

Record t : Type := mk {
  name : string;
  db : gorm.DB;
}.

Definition Name (c : t) : string := name c.

(** [func (c *DatabaseHealthChecker) Ping(ctx) error] *)
Definition Ping (E : Env) (c : t) (ctx : context.Context) : option string :=
  match gorm_DB E (gorm.ConnPool (db c)) with
  | Some err => Some ("failed to get sql.DB: " +:+ err)
  | None =>
      match sql_PingContext E (gorm.ConnPool (db c)) ctx with
      | Some err => Some ("database ping failed: " +:+ err)
      | None => None
      end
  end.

(** [func (c *DatabaseHealthChecker) Check(ctx) error]: the error it
    returns, which is all the [HealthChecker] interface hands to the
    health manager.  What the trace of its SELECT 1 leaves with the
    logger is not part of it. *)
Definition Check (E : Env) (c : t) (ctx : context.Context) : option string :=
  match gorm_DB E (gorm.ConnPool (db c)) with
  | Some err => Some ("failed to get sql.DB: " +:+ err)
  | None =>
      match sql_PingContext E (gorm.ConnPool (db c)) ctx with
      | Some err => Some ("database ping failed: " +:+ err)
      | None =>
          match gorm_Exec E (gorm.ConnPool (db c)) ctx "SELECT 1" with
          | Some err => Some ("database query failed: " +:+ err)
          | None => None
          end
      end
  end.

(** The checker seen through the [health.HealthChecker] interface. *)
Definition asHealthChecker (E : Env) (c : t) : health.HealthChecker.t :=
  {| health.HealthChecker.Name := Name c;
     health.HealthChecker.Ping := λ ctx, Returned (Ping E c ctx);
     health.HealthChecker.Check := λ ctx, Returned (Check E c ctx) |}.

End DatabaseHealthChecker.

(** *** Construction *)

(** The loop of lines 68-85; [i] is the index of the next configured
    slave, [slaves] the handles appended so far. *)
Fixpoint connectSlaves (E : Env) (cfg : config.DatabaseConfig) (i : nat)
    (todo : list config.DBInstanceConfig) (slaves : list gorm.DB)
  : M (list gorm.DB) :=
  match todo with
  | [] => ret slaves
  | slaveCfg :: rest =>
      λ rt,
        match connect E cfg slaveCfg rt with
        | (rt1, Err err) =>
            (let* _ := Warn ("failed to connect to slave database "
                             +:+ pretty i +:+ ": " +:+ err) in
             connectSlaves E cfg (S i) rest slaves) rt1
        | (rt1, Panic) => (rt1, Panic)
        | (rt1, Ok slave) =>
            match DB E slave rt1 with
            | (rt2, Ok slaveSQLDB) =>
                (let* _ := configurePool cfg slaveSQLDB in
                 connectSlaves E cfg (S i) rest (slaves ++ [slave])) rt2
            | (rt2, _) => (rt2, Panic)  (* setters called on a nil sql.DB *)
            end
        end
  end.

(** Step 5 of [New]: [if healthMgr != nil { healthMgr.Register(checker) }]. *)
Definition registerChecker (checker : health.HealthChecker.t) : M unit :=
  λ rt,
    match healthMgr rt with
    | None => (rt, Ok ())
    | Some m =>
        ({| pools := pools rt; nextPool := nextPool rt;
            warnings := warnings rt; stdout := stdout rt;
            healthMgr := Some (health.Register m checker).1 |},
         Ok ())
    end.

(** [func New(cfg, log, healthMgr)]; the logger and
    the health manager are the ones of the runtime. *)
Definition New (E : Env) (cfg : config.DatabaseConfig) : M Database.t :=
  let* master := wrap "failed to connect to master database"
                   (connect E cfg (config.Master cfg)) in
  let* sqlDB := wrap "failed to get sql.DB" (DB E master) in
  let* _ := configurePool cfg sqlDB in
  let* slaves := connectSlaves E cfg 0 (config.Slaves cfg) [] in
  let db := {| Database.name := config.Name cfg; Database.config := cfg;
               Database.master := master; Database.slaves := slaves;
               Database.slaveIndex := 0 |} in
  let* _ := wrap "failed to verify database connection"
              (Exec E (loggerOf cfg) master context.Background "SELECT 1") in
  let* _ := registerChecker
              (DatabaseHealthChecker.asHealthChecker E
                 {| DatabaseHealthChecker.name := config.Name cfg;
                    DatabaseHealthChecker.db := master |}) in
  ret db.

(** *** The registry of databases *)

Module Manager.

Record t : Type := mk {
  databases : gmap string Database.t;
}.

(** [func (m *Manager) Get(name string) *Database]; [None] is [nil]. *)
Definition Get (m : t) (name : string) : option Database.t :=
  databases m !! name.

Definition newline : string := String "010"%char EmptyString.

(** The loop of [Close] over the databases in the order [dbs]. *)
Fixpoint closeEach (E : Env) (dbs : list Database.t) : M unit :=
  match dbs with
  | [] => ret ()
  | db :: rest =>
      let* err := Database.Close E db in
      let* _ := match err with
                | Some e =>
                    Printf ("Warning: failed to close database "
                            +:+ Database.Name db +:+ ": " +:+ e +:+ newline)
                | None => ret ()
                end in
      closeEach E rest
  end.

(** The orders in which [range m.databases] may enumerate the map. *)
Definition iteration (m : t) (order : list (string * Database.t)) : Prop :=
  order ≡ₚ map_to_list (databases m).

(** [func (m *Manager) Close() error], enumerating in [order]. *)
Definition Close (E : Env) (m : t) (order : list (string * Database.t))
  : M (option string) :=
  let* _ := closeEach E order.*2 in
  ret None.

End Manager.

(** The loop of [NewManager] (lines 36-43) from the registry [mgr]. *)
Fixpoint initAll (E : Env) (configs : list config.DatabaseConfig)
    (mgr : Manager.t) : M Manager.t :=
  match configs with
  | [] => ret mgr
  | cfg :: rest =>
      let* db := wrap ("failed to initialize database " +:+ config.Name cfg)
                   (New E cfg) in
      initAll E rest
        {| Manager.databases := <[config.Name cfg := db]> (Manager.databases mgr) |}
  end.

(** Every database of the registry has its checker in the health
    manager, under its name and on its master handle. *)
Definition linked (E : Env) (mgr : Manager.t) (hm : health.Manager) : Prop :=
  ∀ name db, Manager.databases mgr !! name = Some db →
    Database.name db = name
    ∧ health.checkers hm !! name
      = Some (DatabaseHealthChecker.asHealthChecker E
                {| DatabaseHealthChecker.name := name;
                   DatabaseHealthChecker.db := Database.master db |}).

(** [func NewManager(configs, log, healthMgr)] *)
Definition NewManager (E : Env) (configs : list config.DatabaseConfig)
  : M Manager.t :=
  initAll E configs {| Manager.databases := ∅ |}.

(** The handles a database owns. *)
Definition handles (d : Database.t) : list gorm.DB :=
  Database.master d :: Database.slaves d.



(** A pool after [Close]: same bounds, closed. *)
Definition shut (p : Pool) : Pool :=
  {| maxIdleCount := maxIdleCount p; maxOpen := maxOpen p;
     maxLifetime := maxLifetime p;
     maxIdleTime := maxIdleTime p; Closed := true |}.

(** The pools of a database whose [sql.DB] can be obtained. *)
Definition closable (E : Env) (d : Database.t) : list gorm.PoolId :=
  filter (λ id, gorm_DB E id = None) (gorm.ConnPool <$> handles d).

(** The runtime [rt'] is [rt] with the pools named in [ids] closed and
    nothing else changed. *)
Definition closing (ids : list gorm.PoolId) (rt rt' : Runtime) : Prop :=
  (∀ id, pools rt' !! id
         = if decide (id ∈ ids) then shut <$> pools rt !! id
           else pools rt !! id)
  ∧ nextPool rt' = nextPool rt
  ∧ warnings rt' = warnings rt
  ∧ stdout rt' = stdout rt
  ∧ healthMgr rt' = healthMgr rt.

(** The pool under a handle is closed in a runtime. *)
Definition closedIn (rt : Runtime) (x : gorm.DB) : Prop :=
  ∀ p, pools rt !! gorm.ConnPool x = Some p → Closed p = true.

End database.

(** ** Package [redis]: the cache client and its health checker *)

Module redis.

(** [redis.UniversalOptions], as [New] fills it; a client is known by the
    options it was made from. *)
Record UniversalOptions : Type := mkOptions {
  Addrs : list string;
  MasterName : string;
  Password : string;
  DB : Z;
  PoolSize : Z;
  MinIdleConns : Z;
  MaxRetries : Z;
  DialTimeout : Z;
  ReadTimeout : Z;
  WriteTimeout : Z;
  PoolTimeout : Z;
  ConnMaxIdleTime : Z;
}.

Definition UniversalClient : Type := UniversalOptions.

(** What the servers answer; [None] is success. *)
Record Env : Type := mkEnv {
  client_Ping : UniversalClient → context.Context → option string;
  client_Set : UniversalClient → context.Context → string → string → Z →
               option string;
  client_Get : UniversalClient → context.Context → string → option string;
  client_Close : UniversalClient → option string;
}.

Module Redis.

Record t : Type := mk {
  name : string;
  client : UniversalClient;
  config : config.RedisConfig.t;
}.

(** [func (r *Redis) Client() redis.UniversalClient] *)
Definition Client (r : t) : UniversalClient := client r.

(** [func (r *Redis) Close() error] *)
Definition Close (E : Env) (r : t) : option string := client_Close E (client r).

(** [func (r *Redis) Name() string] *)
Definition Name (r : t) : string := name r.

End Redis.

(** [func getAddrs(cfg config.RedisConfig) []string] *)
Definition getAddrs (cfg : config.RedisConfig.t) : list string :=
  if decide (config.RedisConfig.Mode cfg = "sentinel") then
    config.RedisConfig.SentinelAddrs cfg
  else if decide (config.RedisConfig.Mode cfg = "cluster") then
    config.RedisConfig.ClusterAddrs cfg
  else [config.RedisConfig.Addr cfg].

Module RedisHealthChecker.

Record t : Type := mk {
  name : string;
  client : UniversalClient;
}.

Definition Name (c : t) : string := name c.

(** [func (c *RedisHealthChecker) Ping(ctx) error] *)
Definition Ping (E : Env) (c : t) (ctx : context.Context) : option string :=
  match client_Ping E (client c) ctx with
  | Some err => Some ("redis ping failed: " +:+ err)
  | None => None
  end.

Definition second : Z := 1000000000.

(** [func (c *RedisHealthChecker) Check(ctx) error] *)
Definition Check (E : Env) (c : t) (ctx : context.Context) : option string :=
  match client_Ping E (client c) ctx with
  | Some err => Some ("redis ping failed: " +:+ err)
  | None =>
      match client_Set E (client c) ctx "__health_check__" "ok" (10 * second) with
      | Some err => Some ("redis set failed: " +:+ err)
      | None =>
          match client_Get E (client c) ctx "__health_check__" with
          | Some err => Some ("redis get failed: " +:+ err)
          | None => None
          end
      end
  end.

(** The checker seen through the [health.HealthChecker] interface. *)
Definition asHealthChecker (E : Env) (c : t) : health.HealthChecker.t :=
  {| health.HealthChecker.Name := Name c;
     health.HealthChecker.Ping := λ ctx, Returned (Ping E c ctx);
     health.HealthChecker.Check := λ ctx, Returned (Check E c ctx) |}.

End RedisHealthChecker.

(** The options [New] passes to [redis.NewUniversalClient] (redis.go
    lines 41-63). *)
Definition optionsOf (cfg : config.RedisConfig.t) : UniversalOptions :=
  {| Addrs := getAddrs cfg;
     MasterName := config.RedisConfig.MasterName cfg;
     Password := config.RedisConfig.Password cfg;
     DB := config.RedisConfig.DB cfg;
     PoolSize := config.RedisConfig.PoolSize cfg;
     MinIdleConns := config.RedisConfig.MinIdleConns cfg;
     MaxRetries := config.RedisConfig.MaxRetries cfg;
     DialTimeout := config.RedisConfig.DialTimeout cfg;
     ReadTimeout := config.RedisConfig.ReadTimeout cfg;
     WriteTimeout := config.RedisConfig.WriteTimeout cfg;
     PoolTimeout := config.RedisConfig.PoolTimeout cfg;
     ConnMaxIdleTime := config.RedisConfig.IdleCheckFrequency cfg |}.

(** [func New(cfg config.RedisConfig, healthMgr *health.Manager)]; the
    health manager is the one of the runtime. *)
Definition New (E : Env) (cfg : config.RedisConfig.t) : database.M Redis.t :=
  let client := optionsOf cfg in
  match client_Ping E client context.Background with
  | Some err => database.fail ("failed to ping redis: " +:+ err)
  | None =>
      database.bind
        (database.registerChecker
           (RedisHealthChecker.asHealthChecker E
              {| RedisHealthChecker.name := config.RedisConfig.Name cfg;
                 RedisHealthChecker.client := client |}))
        (λ _, database.ret
                {| Redis.name := config.RedisConfig.Name cfg;
                   Redis.client := client;
                   Redis.config := cfg |})
  end.

End redis.

(** ** Package [response] and the handlers of [handler/health] *)

Module response.

(** The part of a [*gin.Context] the handlers read: the context of the
    request and the three places [getTraceID] looks at.  A stored value
    that is not a string is [Some None]. *)
Record Context : Type := mkContext {
  RequestContext : context.Context;
  Keys_trace_id : option (option string);
  Value_trace_id : option (option string);
  Header_X_Trace_ID : string;
}.

(** [func getTraceID(c *gin.Context) string] *)
Definition getTraceID (c : Context) : string :=
  match Keys_trace_id c with
  | Some (Some id) => id
  | _ =>
      match Value_trace_id c with
      | Some (Some id) => id
      | _ =>
          if decide (Header_X_Trace_ID c ≠ EmptyString)
          then Header_X_Trace_ID c else EmptyString
      end
  end.

(** The [gin.H] the health handlers build: a status and, for readiness,
    the checks. *)
Record H : Type := mkH {
  status : string;
  checks : option (gmap string string);
}.

Record Response : Type := mkResponse {
  Code : Z;
  Message : string;
  Data : H;
  TraceID : string;
}.

(** What [c.JSON] wrote: the HTTP status and the object, in the envelope
    or bare. *)
Inductive Object : Type :=
| Enveloped (r : Response)
| Bare (h : H).

Record Written : Type := mkWritten {
  HTTPStatus : Z;
  Body : Object;
}.

(** [func Success(c *gin.Context, data interface{})] *)
Definition Success (c : Context) (data : H) : Written :=
  {| HTTPStatus := 200;
     Body := Enveloped {| Code := 0; Message := "success"; Data := data;
                          TraceID := getTraceID c |} |}.

End response.

Module handler.

Record Env : Type := mkEnv {
  sql : database.Env;
  cache : redis.Env;
}.

Record Handler : Type := mkHandler {
  db : option database.Manager.t;
  redis : option redis.Redis.t;
}.

(** [func NewHandler(logger, db, redis) *Handler] *)
Definition NewHandler (db : option database.Manager.t)
    (redis : option redis.Redis.t) : Handler :=
  {| db := db; redis := redis |}.

(** [func (h *Handler) Liveness(c *gin.Context)] *)
Definition Liveness (h : Handler) (c : response.Context) : response.Written :=
  response.Success c {| response.status := "ok"; response.checks := None |}.

(** Lines 75-90 of [Readiness]: the verdict on the database. *)
Definition databaseCheck (E : Env) (h : Handler) (c : response.Context)
  : string :=
  match db h with
  | Some mgr =>
      match database.Manager.Get mgr "default" with
      | Some dbInstance =>
          let x := database.Database.Master dbInstance
                     (response.RequestContext c) in
          match database.gorm_DB (sql E) (gorm.ConnPool x) with
          | Some _ => "unhealthy"
          | None =>
              match database.sql_PingContext (sql E) (gorm.ConnPool x)
                      context.Background with
              | Some _ => "unhealthy"
              | None => "healthy"
              end
          end
      | None => "not_configured"
      end
  | None => "not_configured"
  end.

(** Lines 93-101 of [Readiness]: the verdict on the cache. *)
Definition redisCheck (E : Env) (h : Handler) (c : response.Context) : string :=
  match redis h with
  | Some r =>
      match redis.client_Ping (cache E) (redis.Redis.Client r)
              (response.RequestContext c) with
      | Some _ => "unhealthy"
      | None => "healthy"
      end
  | None => "not_configured"
  end.

(** Lines 104-110: the loop with its [break], over an enumeration of the
    checks. *)
Fixpoint allHealthy (l : list (string * string)) : bool :=
  match l with
  | [] => true
  | (_, status) :: rest =>
      if decide (status = "unhealthy") then false else allHealthy rest
  end.

(** [func (h *Handler) Readiness(c *gin.Context)]; the map is enumerated
    in the order of [map_to_list], the verdict of the loop being the same
    for every order. *)
Definition Readiness (E : Env) (h : Handler) (c : response.Context)
  : response.Written :=
  let checks : gmap string string :=
    <["redis" := redisCheck E h c]>
      (<["database" := databaseCheck E h c]> ∅) in
  if allHealthy (map_to_list checks) then
    response.Success c {| response.status := "ready";
                          response.checks := Some checks |}
  else
    {| response.HTTPStatus := 503;
       response.Body := response.Bare {| response.status := "not_ready";
                                         response.checks := Some checks |} |}.

End handler.

(** ** Concrete instances used to exercise the model *)

Module sample.

Definition endpoint (host : string) : config.DBInstanceConfig :=
  {| config.Host := host; config.Port := 3306; config.Username := "app";
     config.Password := "secret"; config.Database := "main";
     config.Charset := "utf8mb4"; config.ParseTime := true;
     config.Loc := "Local"; config.SSLMode := "disable" |}.

Definition dbConfig (name : string) (slaves : list string)
  : config.DatabaseConfig :=
  {| config.Name := name; config.Type_ := "mysql";
     config.MaxIdleConns := 10; config.MaxOpenConns := 100;
     config.ConnMaxLifetime := 3600; config.ConnMaxIdleTime := 600;
     config.LogLevel := "warn"; config.SlowThreshold := 200000000;
     config.Master := endpoint (name +:+ "-master");
     config.Slaves := endpoint <$> slaves |}.

Definition pool (id : N) : gorm.DB :=
  {| gorm.ConnPool := id; gorm.Ctx := context.Background |}.

(** A database with master pool 0 and slave pools 1, 2, 3, freshly
    constructed (counter at its zero value). *)
Definition three_slaves : database.Database.t :=
  {| database.Database.name := "main";
     database.Database.config := dbConfig "main" ["s1"; "s2"; "s3"];
     database.Database.master := pool 0;
     database.Database.slaves := [pool 1; pool 2; pool 3];
     database.Database.slaveIndex := 0 |}.

(** The same with no active slave. *)
Definition no_slaves : database.Database.t :=
  {| database.Database.name := "main";
     database.Database.config := dbConfig "main" ["s1"];
     database.Database.master := pool 0;
     database.Database.slaves := [];
     database.Database.slaveIndex := 0 |}.

Definition requests (i : N) : context.Context := context.Request i.

(** The DSN [connect] builds for [endpoint host] under [dbConfig]. *)
Definition dsn (host : string) : string :=
  "app:secret@tcp(" +:+ host
  +:+ ":3306)/main?charset=utf8mb4&parseTime=true&loc=Local".

(** A world where the hosts in [down] refuse connections, the pools in
    [broken] fail the verification query, and nothing else fails; every
    statement takes a millisecond, the slow threshold of [dbConfig]
    being 200 ms. *)
Definition env (down : list string) (broken : list N) : database.Env :=
  {| database.gorm_Open := λ d,
       match d with
       | gorm.mysql_Open s =>
           if bool_decide (s ∈ dsn <$> down)
           then Some "dial tcp: connection refused" else None
       | _ => None
       end;
     database.gorm_DB := λ _, None;
     database.sql_PingContext := λ _ _, None;
     database.gorm_Exec := λ p _ _,
       if bool_decide (p ∈ broken) then Some "server has gone away" else None;
     database.sql_Close := λ _, Some "sql: database is closed";
     database.time_Since := λ _ _ _, 1000000%Z;
     database.errors_Is_ErrRecordNotFound := λ _, false |}.

(** The same world, where every statement takes half a second, longer
    than the slow threshold of [dbConfig]. *)
Definition sluggish (down : list string) (broken : list N) : database.Env :=
  {| database.gorm_Open := database.gorm_Open (env down broken);
     database.gorm_DB := database.gorm_DB (env down broken);
     database.sql_PingContext := database.sql_PingContext (env down broken);
     database.gorm_Exec := database.gorm_Exec (env down broken);
     database.sql_Close := database.sql_Close (env down broken);
     database.time_Since := λ _ _ _, 500000000%Z;
     database.errors_Is_ErrRecordNotFound := λ _, false |}.

Definition healthConfig : config.HealthConfig :=
  {| config.Timeout := 5; config.Detailed := true |}.

(** A checker whose two probes always do the same thing. *)
Definition steady (name : string) (does : outcome (option string))
  : health.HealthChecker.t :=
  {| health.HealthChecker.Name := name;
     health.HealthChecker.Ping := λ _, does;
     health.HealthChecker.Check := λ _, does |}.

Definition registerAll (l : list health.HealthChecker.t) : health.Manager :=
  foldl (λ m c, (health.Register m c).1) (health.NewManager healthConfig) l.

(** Three checkers, exactly one of which returns an error. *)
Definition three_checkers : health.Manager :=
  registerAll [steady "main" (Returned None);
               steady "cache" (Returned (Some "connection refused"));
               steady "search" (Returned None)].

Definition noon : string := "2026-01-01T12:00:00Z".

(** What a readiness round over [three_checkers] returns. *)
Definition three_status : health.HealthStatus.t :=
  {| health.HealthStatus.Status := "error";
     health.HealthStatus.Timestamp := noon;
     health.HealthStatus.Checks :=
       <["main" := health.resultOf None]>
         (<["cache" := health.resultOf (Some "connection refused")]>
            (<["search" := health.resultOf None]> ∅)) |}.

(** Two checkers, one of which panics. *)
Definition panicky : health.Manager :=
  registerAll [steady "main" (Returned None); steady "cache" Panicked].

(** The runtime at startup: no pool yet, an empty health manager. *)
Definition startup : database.Runtime :=
  {| database.pools := ∅; database.nextPool := 0%N;
     database.warnings := []; database.stdout := [];
     database.healthMgr := Some (health.NewManager healthConfig) |}.


(** Three configured databases; the master of the second is down. *)
Definition configs : list config.DatabaseConfig :=
  [dbConfig "main" ["s1"]; dbConfig "orders" []; dbConfig "audit" []].

Definition world : database.Env := env ["orders-master"] [].

(** The runtime and the registry once "main" alone is constructed. *)
Definition after_main : database.Runtime :=
  (database.NewManager world [dbConfig "main" ["s1"]] startup).1.

Definition main_only : database.Manager.t :=
  match (database.NewManager world [dbConfig "main" ["s1"]] startup).2 with
  | database.Ok mgr => mgr
  | _ => {| database.Manager.databases := ∅ |}
  end.

(** A world where slave "s1" is down, and what constructing "main" with
    slaves "s1" and "s2" gives there. *)
Definition degraded : database.Env := env ["s1"] [].

Definition built_runtime : database.Runtime :=
  (database.New degraded (dbConfig "main" ["s1"; "s2"]) startup).1.

Definition built_database : database.Database.t :=
  match (database.New degraded (dbConfig "main" ["s1"; "s2"]) startup).2 with
  | database.Ok d => d
  | _ => no_slaves
  end.

(** A world where both slaves are down. *)
Definition isolated_master : database.Env := env ["s1"; "s2"] [].

(** A standalone cache, configured under the name of the database. *)
Definition cacheConfig : config.RedisConfig.t :=
  {| config.RedisConfig.Name := "main";
     config.RedisConfig.Mode := "standalone";
     config.RedisConfig.Addr := "cache:6379";
     config.RedisConfig.MasterName := EmptyString;
     config.RedisConfig.SentinelAddrs := [];
     config.RedisConfig.ClusterAddrs := [];
     config.RedisConfig.Password := "secret";
     config.RedisConfig.DB := 0;
     config.RedisConfig.PoolSize := 10;
     config.RedisConfig.MinIdleConns := 2;
     config.RedisConfig.MaxRetries := 3;
     config.RedisConfig.DialTimeout := 5;
     config.RedisConfig.ReadTimeout := 3;
     config.RedisConfig.WriteTimeout := 3;
     config.RedisConfig.PoolTimeout := 4;
     config.RedisConfig.IdleCheckFrequency := 60 |}.

(** A cache that answers every command, and one that refuses the ping. *)
Definition cache_up : redis.Env :=
  {| redis.client_Ping := λ _ _, None;
     redis.client_Set := λ _ _ _ _ _, None;
     redis.client_Get := λ _ _ _, None;
     redis.client_Close := λ _, None |}.

Definition cache_down : redis.Env :=
  {| redis.client_Ping := λ _ _, Some "dial tcp: connection refused";
     redis.client_Set := λ _ _ _ _ _, None;
     redis.client_Get := λ _ _ _, None;
     redis.client_Close := λ _, None |}.




(** Two configurations under one name, and the registry built from
    them. *)
Definition twice : list config.DatabaseConfig :=
  [dbConfig "main" []; dbConfig "main" ["s1"]].

Definition twice_runtime : database.Runtime :=
  (database.NewManager (env [] []) twice startup).1.

Definition twice_registry : database.Manager.t :=
  match (database.NewManager (env [] []) twice startup).2 with
  | database.Ok mgr => mgr
  | _ => {| database.Manager.databases := ∅ |}
  end.

(** Two databases, the cache being named like the first of them. *)
Definition pair : list config.DatabaseConfig :=
  [dbConfig "main" ["s1"]; dbConfig "audit" []].

Definition pair_runtime : database.Runtime :=
  (database.NewManager degraded pair startup).1.

Definition pair_registry : database.Manager.t :=
  match (database.NewManager degraded pair startup).2 with
  | database.Ok mgr => mgr
  | _ => {| database.Manager.databases := ∅ |}
  end.

(** The runtime once the cache is constructed after the two databases. *)
Definition pair_cached : database.Runtime :=
  (redis.New cache_up cacheConfig pair_runtime).1.

Definition cache_client : redis.Redis.t :=
  {| redis.Redis.name := "main";
     redis.Redis.client := redis.optionsOf cacheConfig;
     redis.Redis.config := cacheConfig |}.

(** A request without trace identifier. *)
Definition request : response.Context :=
  {| response.RequestContext := context.Request 1;
     response.Keys_trace_id := None;
     response.Value_trace_id := None;
     response.Header_X_Trace_ID := EmptyString |}.

(** A world for the handlers where every database ping fails. *)
Definition outage : handler.Env :=
  {| handler.sql :=
       {| database.gorm_Open := λ _, None;
          database.gorm_DB := λ _, None;
          database.sql_PingContext := λ _ _, Some "driver: bad connection";
          database.gorm_Exec := λ _ _ _, Some "driver: bad connection";
          database.sql_Close := λ _, None;
          database.time_Since := λ _ _ _, 1000000%Z;
          database.errors_Is_ErrRecordNotFound := λ _, false |};
     handler.cache := cache_up |}.

(** A world for the handlers where the databases answer and the cache
    refuses the ping. *)
Definition cache_outage : handler.Env :=
  {| handler.sql := env [] []; handler.cache := cache_down |}.

End sample.

(** * Properties *)

Section routing.

Import database.

Variable ctxs : N → context.Context.

Lemma after_0 d : Database.after ctxs d 0 = d.
Proof. reflexivity. Qed.

Lemma after_succ d n :
  Database.after ctxs d (N.succ n)
  = fst (Database.Slave (Database.after ctxs d n) (ctxs (N.succ n))).
Proof. unfold Database.after. now rewrite N.peano_rect_succ. Qed.

Lemma Slave_slaves d ctx :
  Database.slaves (fst (Database.Slave d ctx)) = Database.slaves d.
Proof.
  unfold Database.Slave.
  destruct (length (Database.slaves d) =? 0)%nat; reflexivity.
Qed.

Lemma after_slaves d n :
  Database.slaves (Database.after ctxs d n) = Database.slaves d.
Proof.
  induction n as [|n IH] using N.peano_ind; [reflexivity|].
  rewrite after_succ, Slave_slaves. exact IH.
Qed.

Lemma after_master d n :
  Database.master (Database.after ctxs d n) = Database.master d.
Proof.
  induction n as [|n IH] using N.peano_ind; [reflexivity|].
  rewrite after_succ. unfold Database.Slave.
  destruct (length _ =? 0)%nat; exact IH.
Qed.

(** With at least one slave, every call adds one to the counter,
    modulo [2^32]. *)
Lemma after_slaveIndex d n :
  Database.slaves d ≠ [] →
  Database.slaveIndex (Database.after ctxs d n)
  = if (n =? 0)%N then Database.slaveIndex d
    else uint32.of_N (Database.slaveIndex d + n).
Proof.
  intros Hne.
  induction n as [|n IH] using N.peano_ind; [reflexivity|].
  rewrite after_succ. unfold Database.Slave.
  rewrite after_slaves.
  destruct (Database.slaves d) as [|s l] eqn:Hs; [done|]. simpl.
  rewrite IH.
  destruct (N.eqb_spec (N.succ n) 0) as [E|_]; [lia|].
  unfold uint32.Add, uint32.of_N.
  destruct (N.eqb_spec n 0) as [->|_].
  - reflexivity.
  - rewrite N.Div0.add_mod_idemp_l. f_equal. lia.
Qed.

(** The index selected by the [i]-th call, in closed form. *)
Lemma selected_closed d i :
  (0 < Database.slave_count d < uint32.modulus)%N →
  (Database.slaveIndex d < uint32.modulus)%N →
  (1 ≤ i)%N →
  Database.selected ctxs d i
  = Returned (uint32.of_N (Database.slaveIndex d + i) mod Database.slave_count d)%N.
Proof.
  intros [Hpos Hlt] Hidx Hi.
  assert (Hne : Database.slaves d ≠ []).
  { unfold Database.slave_count in Hpos. destruct (Database.slaves d); [simpl in Hpos; lia|done]. }
  unfold Database.selected, Database.nextIndex. simpl.
  rewrite after_slaves, after_slaveIndex by done.
  fold (Database.slave_count d).
  assert (Hn : uint32.of_N (Database.slave_count d) = Database.slave_count d).
  { unfold uint32.of_N. apply N.mod_small. lia. }
  rewrite Hn.
  destruct (N.eqb_spec (Database.slave_count d) 0) as [E|_]; [lia|].
  f_equal. f_equal.
  unfold uint32.Add, uint32.of_N.
  destruct (N.eqb_spec (N.pred i) 0) as [E|_].
  - f_equal. lia.
  - rewrite N.Div0.add_mod_idemp_l. f_equal. lia.
Qed.

Lemma Slave_nonempty d ctx :
  Database.slaves d ≠ [] →
  Database.Slave d ctx
  = (fst (Database.nextIndex d),
     match snd (Database.nextIndex d) with
     | Panicked => Panicked
     | Returned i =>
         match Database.slaves d !! N.to_nat i with
         | Some s => Returned (gorm.WithContext s ctx)
         | None => Panicked
         end
     end).
Proof.
  intros Hne. unfold Database.Slave.
  destruct (Database.slaves d) as [|s l] eqn:Hs; [done|]. reflexivity.
Qed.

(** The handle of a call is the selected slave, bound to the context. *)
Lemma call_selected d i x :
  Database.slaves d ≠ [] →
  Database.selected ctxs d i = Returned x →
  Database.call ctxs d i
  = match Database.slaves d !! N.to_nat x with
    | Some s => Returned (gorm.WithContext s (ctxs i))
    | None => Panicked
    end.
Proof.
  intros Hne Hsel. unfold Database.call, Database.selected in *.
  rewrite Slave_nonempty by now rewrite after_slaves.
  rewrite Hsel, after_slaves. reflexivity.
Qed.

(** *** Counting the calls that select one index *)

Lemma count_step_Z (L j c n : Z) :
  (0 < L → 0 ≤ j < L → 0 ≤ c < L → (j + c = L ∨ j + c = 0) → 0 ≤ n →
   (n + 1 + c) / L = (n + c) / L + (if (n + 1) mod L =? j then 1 else 0))%Z.
Proof.
  intros HL Hj Hc Hjc Hn.
  pose proof (Z.div_mod (n + c) L ltac:(lia)) as D.
  pose proof (Z.mod_pos_bound (n + c) L HL) as B.
  set (q := ((n + c) / L)%Z) in *. set (r := ((n + c) mod L)%Z) in *.
  clearbody q r.
  destruct (Z.eq_dec r (L - 1)%Z) as [Hr|Hr].
  - replace (n + 1 + c)%Z with ((q + 1) * L)%Z by lia.
    rewrite Z.div_mul by lia.
    assert (((n + 1) mod L = j)%Z) as ->.
    { symmetry.
      apply (Z.mod_unique _ _ (if (j =? 0)%Z then q + 1 else q)%Z); [lia|].
      destruct (Z.eqb_spec j 0); nia. }
    rewrite Z.eqb_refl. lia.
  - replace (n + 1 + c)%Z with (q * L + (r + 1))%Z by lia.
    rewrite Z.div_add_l, Z.div_small by lia.
    destruct (Z.eqb_spec ((n + 1) mod L) j) as [E|E]; [|lia].
    exfalso.
    pose proof (Z.div_mod (n + 1) L ltac:(lia)) as D'. rewrite E in D'.
    set (q' := ((n + 1) / L)%Z) in *. clearbody q'.
    assert (L * (q' - q) = r + 1 - (j + c))%Z as Heq by lia.
    assert (q' - q = 0 ∨ q' - q ≤ -1 ∨ 1 ≤ q' - q)%Z as Hq by lia.
    destruct Hjc as [Hjc|Hjc]; rewrite Hjc in Heq;
      destruct Hq as [|[|]]; nia.
Qed.

Lemma count_step_N (L j n : N) :
  (0 < L)%N → (j < L)%N →
  ((N.succ n + Database.offset L j) / L
   = (n + Database.offset L j) / L
     + (if N.succ n mod L =? j then 1 else 0))%N.
Proof.
  intros HL Hj.
  assert (Hc : (Database.offset L j < L)%N
               ∧ (j + Database.offset L j = L ∨ j + Database.offset L j = 0)%N).
  { unfold Database.offset. destruct (N.eqb_spec j 0); lia. }
  destruct Hc as [Hc Hjc].
  generalize dependent (Database.offset L j). intros c Hc Hjc.
  pose proof (count_step_Z (Z.of_N L) (Z.of_N j) (Z.of_N c) (Z.of_N n)
                ltac:(lia) ltac:(lia) ltac:(lia) ltac:(lia) ltac:(lia)) as H.
  apply N2Z.inj.
  rewrite N2Z.inj_add, !N2Z.inj_div, !N2Z.inj_add, N2Z.inj_succ.
  unfold Z.succ. rewrite H. f_equal.
  destruct (N.eqb_spec (N.succ n mod L) j) as [E|E];
    destruct (Z.eqb_spec ((Z.of_N n + 1) mod Z.of_N L) (Z.of_N j)) as [F|F];
    try reflexivity; exfalso.
  - apply F. rewrite <- E, N2Z.inj_mod, N2Z.inj_succ. reflexivity.
  - apply E, N2Z.inj. rewrite N2Z.inj_mod, N2Z.inj_succ. exact F.
Qed.

Lemma visits_succ d j n :
  Database.visits ctxs d j (N.succ n)
  = match Database.selected ctxs d (N.succ n) with
    | Returned x =>
        if (x =? j)%N then N.succ (Database.visits ctxs d j n)
        else Database.visits ctxs d j n
    | Panicked => Database.visits ctxs d j n
    end.
Proof. unfold Database.visits. now rewrite N.peano_rect_succ. Qed.

(** Before the counter wraps, the number of visits has a closed form. *)
Lemma visits_closed d j n :
  (0 < Database.slave_count d < uint32.modulus)%N →
  Database.slaveIndex d = 0%N →
  (j < Database.slave_count d)%N →
  (n < uint32.modulus)%N →
  Database.visits ctxs d j n
  = ((n + Database.offset (Database.slave_count d) j)
     / Database.slave_count d)%N.
Proof.
  intros HL H0 Hj.
  induction n as [|n IH] using N.peano_ind; intros Hn.
  - simpl. symmetry. apply N.div_small.
    unfold Database.offset. destruct (N.eqb_spec j 0); lia.
  - rewrite visits_succ, selected_closed by (rewrite ?H0; unfold uint32.modulus in *; lia).
    rewrite H0, N.add_0_l. unfold uint32.of_N.
    rewrite (N.mod_small (N.succ n)) by lia.
    rewrite IH by lia. rewrite count_step_N by lia.
    destruct (N.eqb_spec (N.succ n mod Database.slave_count d) j); lia.
Qed.

(** *** Round-robin selection *)

Lemma slave_lookup d x :
  (x < Database.slave_count d)%N → is_Some (Database.slaves d !! N.to_nat x).
Proof.
  intros Hx. apply lookup_lt_is_Some. unfold Database.slave_count in Hx. lia.
Qed.

(** C1 (amended). For a Database with N >= 1 active slaves whose counter
    is at its construction value 0, and every k >= 1 with k * N < 2^32
    (the 32-bit counter does not wrap), a single caller issuing Slave(ctx)
    exactly k * N times sequentially receives a handle backed by each
    slave exactly k times, the slaves being visited in cyclic order. *)
Theorem Slave_round_robin_before_wrap d k :
  Database.slaves d ≠ [] →
  Database.slaveIndex d = 0%N →
  (1 ≤ k)%N →
  (k * Database.slave_count d < uint32.modulus)%N →
  Database.round_robin ctxs d k.
Proof.
  intros Hne H0 Hk Hbound.
  assert (HL : (0 < Database.slave_count d < uint32.modulus)%N).
  { unfold Database.slave_count in *.
    destruct (Database.slaves d); [done|]. simpl length in *. nia. }
  assert (Hsel : ∀ i, (1 ≤ i ≤ k * Database.slave_count d)%N →
            Database.selected ctxs d i
            = Returned (i mod Database.slave_count d)%N).
  { intros i Hi. rewrite selected_closed by (rewrite ?H0; lia).
    rewrite H0, N.add_0_l. unfold uint32.of_N.
    now rewrite (N.mod_small i) by lia. }
  repeat split.
  - intros j Hj. rewrite visits_closed by (done || lia).
    rewrite N.div_add_l by lia.
    rewrite N.div_small; [lia|].
    unfold Database.offset. destruct (N.eqb_spec j 0); lia.
  - intros i Hi.
    destruct (slave_lookup d (i mod Database.slave_count d)) as [s Hs].
    { apply N.mod_lt. lia. }
    exists (i mod Database.slave_count d)%N, s. split; [now apply Hsel|].
    split; [exact Hs|].
    rewrite (call_selected d i _ Hne (Hsel i Hi)), Hs. reflexivity.
  - intros i x Hi Hx. rewrite Hsel in Hx by lia.
    injection Hx as <-. rewrite Hsel by lia.
    f_equal. rewrite N.Div0.add_mod_idemp_l. reflexivity.
Qed.

End routing.

(** ** Health aggregation *)

Section aggregation.

Import health.

Variable probe : HealthChecker.t → context.Context → outcome (option string).
Variable checkCtx : context.Context.

Lemma Ping_aggregate m ctx now tasks :
  Ping m ctx now tasks = aggregate HealthChecker.Ping m ctx now tasks.
Proof. reflexivity. Qed.

Lemma Check_aggregate m ctx now tasks :
  Check m ctx now tasks = aggregate HealthChecker.Check m ctx now tasks.
Proof. reflexivity. Qed.

Lemma record_returned name err st st' :
  record name err st = Returned st' →
  ∃ e, err = Returned e
       ∧ HealthStatus.Checks st' = <[name := resultOf e]> (HealthStatus.Checks st)
       ∧ HealthStatus.Timestamp st' = HealthStatus.Timestamp st
       ∧ HealthStatus.Status st'
         = match e with
           | Some _ => "error"
           | None => HealthStatus.Status st
           end.
Proof.
  destruct err as [[msg|]|]; simpl; intros H; [| |discriminate];
    injection H as <-; eauto 6.
Qed.

Lemma fanOut_cons name c rest st :
  fanOut probe checkCtx ((name, c) :: rest) st
  = match record name (probe c checkCtx) st with
    | Returned st1 => fanOut probe checkCtx rest st1
    | Panicked => Panicked
    end.
Proof. reflexivity. Qed.

(** A round returns exactly when no probe panics. *)
Lemma fanOut_total tasks st :
  (∀ n c, (n, c) ∈ tasks → probe c checkCtx ≠ Panicked) →
  ∃ st', fanOut probe checkCtx tasks st = Returned st'.
Proof.
  revert st. induction tasks as [|[n c] rest IH]; intros st Hok.
  - eauto.
  - rewrite fanOut_cons.
    destruct (probe c checkCtx) as [e|] eqn:Hp.
    + destruct e; simpl; apply IH; intros n' c' Hin;
        apply (Hok n' c'); apply elem_of_cons; by right.
    + exfalso. apply (Hok n c); [apply elem_of_cons; by left|done].
Qed.

Lemma fanOut_panicked tasks st n c :
  (n, c) ∈ tasks → probe c checkCtx = Panicked →
  fanOut probe checkCtx tasks st = Panicked.
Proof.
  revert st. induction tasks as [|[n' c'] rest IH]; intros st Hin Hp.
  - by apply elem_of_nil in Hin.
  - rewrite fanOut_cons. apply elem_of_cons in Hin as [[= <- <-]|Hin].
    + now rewrite Hp.
    + destruct (record n' (probe c' checkCtx) st); eauto.
Qed.

Lemma fanOut_returns tasks st st' n c :
  fanOut probe checkCtx tasks st = Returned st' →
  (n, c) ∈ tasks → probe c checkCtx ≠ Panicked.
Proof.
  intros Hret Hin Hp. now rewrite (fanOut_panicked _ _ _ _ Hin Hp) in Hret.
Qed.

Lemma fanOut_timestamp tasks st st' :
  fanOut probe checkCtx tasks st = Returned st' →
  HealthStatus.Timestamp st' = HealthStatus.Timestamp st.
Proof.
  revert st. induction tasks as [|[n c] rest IH]; intros st.
  - now intros [= <-].
  - rewrite fanOut_cons.
    destruct (record _ _ _) as [st1|] eqn:Hr; [|discriminate].
    intros H%IH. apply record_returned in Hr as (e & _ & _ & Ht & _).
    congruence.
Qed.

(** The overall status stays "ok" exactly when every probe returns nil. *)
Lemma fanOut_status tasks st st' :
  fanOut probe checkCtx tasks st = Returned st' →
  HealthStatus.Status st' = "ok"
  ↔ HealthStatus.Status st = "ok"
    ∧ ∀ n c, (n, c) ∈ tasks → probe c checkCtx = Returned None.
Proof.
  revert st. induction tasks as [|[n c] rest IH]; intros st.
  - intros [= <-]. split; [|tauto]. intros H; split; [done|].
    intros n c Hin. by apply elem_of_nil in Hin.
  - rewrite fanOut_cons.
    destruct (record _ _ _) as [st1|] eqn:Hr; [|discriminate].
    intros H. rewrite (IH _ H).
    apply record_returned in Hr as (e & He & _ & _ & Hs). rewrite Hs.
    split.
    + intros [H1 H2]. destruct e; [discriminate|]. split; [done|].
      intros n' c' [[= -> ->]|Hin]%elem_of_cons; eauto.
    + intros [H1 H2]. assert (e = None) as ->.
      { specialize (H2 n c ltac:(apply elem_of_cons; by left)). congruence. }
      split; [done|]. intros n' c' Hin. apply (H2 n' c').
      apply elem_of_cons. by right.
Qed.

Lemma fanOut_status_values tasks st st' :
  fanOut probe checkCtx tasks st = Returned st' →
  HealthStatus.Status st' = HealthStatus.Status st
  ∨ HealthStatus.Status st' = "error".
Proof.
  revert st. induction tasks as [|[n c] rest IH]; intros st.
  - intros [= <-]. by left.
  - rewrite fanOut_cons.
    destruct (record _ _ _) as [st1|] eqn:Hr; [|discriminate].
    intros [H|H]%IH; [|by right].
    apply record_returned in Hr as (e & _ & _ & _ & Hs).
    rewrite H, Hs. destruct e; [by right|by left].
Qed.

(** With distinct names, the checks map holds the verdict of every task
    and keeps every other entry. *)
Lemma fanOut_lookup tasks st st' n :
  NoDup tasks.*1 →
  fanOut probe checkCtx tasks st = Returned st' →
  HealthStatus.Checks st' !! n
  = match (list_to_map tasks : gmap string HealthChecker.t) !! n with
    | Some c => Some (verdict probe checkCtx c)
    | None => HealthStatus.Checks st !! n
    end.
Proof.
  revert st. induction tasks as [|[k c] rest IH]; intros st Hnd.
  - now intros [= <-].
  - rewrite fanOut_cons. apply NoDup_cons in Hnd as [Hk Hnd].
    destruct (record _ _ _) as [st1|] eqn:Hr; [|discriminate].
    intros H. rewrite (IH _ Hnd H).
    apply record_returned in Hr as (e & He & Hc & _). rewrite Hc.
    change (list_to_map ((k, c) :: rest))
      with (<[k := c]> (list_to_map rest : gmap string HealthChecker.t)).
    destruct (decide (k = n)) as [->|Hne].
    + rewrite lookup_insert_eq.
      rewrite (not_elem_of_list_to_map_1 rest n Hk), lookup_insert_eq.
      unfold verdict. now rewrite He.
    + rewrite !lookup_insert_ne by done. reflexivity.
Qed.

Lemma schedule_NoDup m tasks : schedule m tasks → NoDup tasks.*1.
Proof.
  intros H. unfold schedule in H. rewrite H. apply NoDup_fst_map_to_list.
Qed.

Lemma schedule_list_to_map m tasks :
  schedule m tasks → list_to_map tasks = checkers m.
Proof.
  intros H. rewrite <- (list_to_map_to_list (checkers m)).
  apply list_to_map_proper; [by eapply schedule_NoDup|exact H].
Qed.

Lemma schedule_elem m tasks n c :
  schedule m tasks → (n, c) ∈ tasks ↔ checkers m !! n = Some c.
Proof.
  intros H. unfold schedule in H. rewrite H. apply elem_of_map_to_list.
Qed.

Lemma schedule_empty m tasks :
  schedule m tasks → size (checkers m) = 0 → tasks = [].
Proof.
  intros H Hs. apply map_size_empty_inv in Hs. unfold schedule in H.
  rewrite Hs, map_to_list_empty in H. now apply Permutation_nil_r in H.
Qed.

End aggregation.

Section aggregate_spec.

Import health.

Variable probe : HealthChecker.t → context.Context → outcome (option string).

(** What a completed round returns. *)
Lemma aggregate_returned m ctx now tasks st :
  schedule m tasks →
  aggregate probe m ctx now tasks = Returned st →
  HealthStatus.Checks st = verdict probe (deadline m ctx) <$> checkers m
  ∧ HealthStatus.Timestamp st = now
  ∧ (HealthStatus.Status st = "ok"
     ↔ ∀ n c, checkers m !! n = Some c →
              probe c (deadline m ctx) = Returned None)
  ∧ (∀ n c, checkers m !! n = Some c →
            probe c (deadline m ctx) ≠ Panicked)
  ∧ (HealthStatus.Status st = "ok" ∨ HealthStatus.Status st = "error").
Proof.
  intros Hs. unfold aggregate. fold (deadline m ctx).
  assert (Hfan : fanOut probe (deadline m ctx) tasks
           {| HealthStatus.Status := "ok"; HealthStatus.Timestamp := now;
              HealthStatus.Checks := ∅ |} = Returned st →
         HealthStatus.Checks st = verdict probe (deadline m ctx) <$> checkers m
         ∧ HealthStatus.Timestamp st = now
         ∧ (HealthStatus.Status st = "ok"
            ↔ ∀ n c, checkers m !! n = Some c →
                     probe c (deadline m ctx) = Returned None)
         ∧ (∀ n c, checkers m !! n = Some c →
                   probe c (deadline m ctx) ≠ Panicked)
         ∧ (HealthStatus.Status st = "ok"
            ∨ HealthStatus.Status st = "error")).
  { intros H. split; [|split; [|split; [split|split]]].
    - apply map_eq. intros n.
      rewrite (fanOut_lookup _ _ _ _ _ n (schedule_NoDup _ _ Hs) H).
      rewrite (schedule_list_to_map _ _ Hs), lookup_fmap. simpl.
      destruct (checkers m !! n); [done|apply lookup_empty].
    - apply (fanOut_timestamp _ _ _ _ _ H).
    - intros Hok n c Hc. apply (fanOut_status _ _ _ _ _ H) in Hok as [_ Hok].
      apply (Hok n c). now apply (schedule_elem _ _ _ _ Hs).
    - intros Hok. apply (fanOut_status _ _ _ _ _ H). split; [done|].
      intros n c Hin. apply (Hok n c). now apply (schedule_elem _ _ _ _ Hs).
    - intros n c Hc. apply (fanOut_returns _ _ _ _ _ n c H).
      now apply (schedule_elem _ _ _ _ Hs).
    - apply (fanOut_status_values _ _ _ _ _ H). }
  destruct (decide (size (checkers m) = 0)) as [Hz|Hnz]; [|exact Hfan].
  rewrite (schedule_empty _ _ Hs Hz) in Hfan. exact Hfan.
Qed.

(** A round completes when no registered probe panics. *)
Lemma aggregate_total m ctx now tasks :
  schedule m tasks →
  (∀ n c, checkers m !! n = Some c → probe c (deadline m ctx) ≠ Panicked) →
  ∃ st, aggregate probe m ctx now tasks = Returned st.
Proof.
  intros Hs Hok. unfold aggregate.
  destruct (decide (size (checkers m) = 0)) as [Hz|Hnz]; [eauto|].
  apply fanOut_total. intros n c Hin. apply (Hok n c).
  now apply (schedule_elem _ _ _ _ Hs).
Qed.

(** A panicking probe ends the round. *)
Lemma aggregate_panicked m ctx now tasks n c :
  schedule m tasks →
  checkers m !! n = Some c →
  probe c (deadline m ctx) = Panicked →
  aggregate probe m ctx now tasks = Panicked.
Proof.
  intros Hs Hc Hp. unfold aggregate.
  destruct (decide (size (checkers m) = 0)) as [Hz|Hnz].
  - apply map_size_empty_inv in Hz. rewrite Hz, lookup_empty in Hc. done.
  - apply (fanOut_panicked _ _ _ _ n c); [|exact Hp].
    now apply (schedule_elem _ _ _ _ Hs).
Qed.

End aggregate_spec.

(** ** Claims on the health manager *)

Section health_claims.

Import health.

Lemma run_aggregate k m ctx now tasks :
  run k m ctx now tasks = aggregate (probeOf k) m ctx now tasks.
Proof. destruct k; reflexivity. Qed.

Lemma verdict_error probe ctx c :
  probe c ctx ≠ Panicked →
  CheckResult.Status (verdict probe ctx c) = "error"
  ↔ ∃ msg, probe c ctx = Returned (Some msg).
Proof.
  unfold verdict. destruct (probe c ctx) as [[msg|]|]; simpl; intros Hp.
  - split; eauto.
  - split; [discriminate|]. intros [? [=]].
  - done.
Qed.

Lemma verdict_ok probe ctx c :
  probe c ctx ≠ Panicked →
  CheckResult.Status (verdict probe ctx c) = "ok"
  ↔ probe c ctx = Returned None.
Proof.
  unfold verdict. destruct (probe c ctx) as [[msg|]|]; simpl; intros Hp.
  - split; discriminate.
  - split; done.
  - done.
Qed.

Lemma countStatus_verdict probe ctx s (Q : string * HealthChecker.t → bool)
    (m : gmap string HealthChecker.t) :
  (∀ n c, m !! n = Some c →
          CheckResult.Status (verdict probe ctx c) = s ↔ Q (n, c) = true) →
  countStatus s (verdict probe ctx <$> m)
  = size (filter (λ kv, Q kv = true) m).
Proof.
  intros H. unfold countStatus.
  rewrite map_filter_fmap, map_size_fmap. f_equal.
  apply map_filter_ext. intros i x Hix. simpl. now apply H.
Qed.

Lemma size_failing_passing probe ctx (m : gmap string HealthChecker.t) :
  (∀ n c, m !! n = Some c → probe c ctx ≠ Panicked) →
  size (filter (λ kv, failing probe ctx kv = true) m)
  + size (filter (λ kv, passing probe ctx kv = true) m)
  = size m.
Proof.
  intros Hok.
  pose proof (map_filter_union_complement
                (λ kv, failing probe ctx kv = true) m) as Hu.
  pose proof (map_disjoint_filter_complement
                (λ kv, failing probe ctx kv = true) m) as Hd.
  apply map_size_disj_union in Hd. rewrite Hu in Hd. rewrite Hd. f_equal.
  f_equal. apply map_filter_ext. intros n c Hc. specialize (Hok n c Hc).
  unfold passing, failing. simpl.
  destruct (probe c ctx) as [[msg|]|]; [split; [done|intros []; done]| |done].
  split; [discriminate|done].
Qed.

Lemma probes_return_of_counts probe ctx (m : gmap string HealthChecker.t) :
  size (filter (λ kv, failing probe ctx kv = true) m)
  + size (filter (λ kv, passing probe ctx kv = true) m)
  = size m →
  ∀ n c, m !! n = Some c → probe c ctx ≠ Panicked.
Proof.
  intros Hsum n c Hc Hp.
  assert (Hall : filter (λ kv, failing probe ctx kv = true
                               ∨ passing probe ctx kv = true) m = m).
  { apply map_subseteq_size_eq; [apply map_filter_subseteq|].
    rewrite map_filter_or, map_size_disj_union; [lia|].
    apply map_disjoint_spec. intros i x y.
    intros [Hx Hfx]%map_lookup_filter_Some [Hy Hpy]%map_lookup_filter_Some.
    assert (x = y) as -> by congruence.
    unfold failing, passing in *. simpl in *.
    destruct (probe y ctx) as [[msg|]|]; discriminate. }
  rewrite <- Hall in Hc. apply map_lookup_filter_Some in Hc as [_ Hc].
  unfold failing, passing in Hc. simpl in Hc. rewrite Hp in Hc.
  destruct Hc; discriminate.
Qed.

(** C3. The status returned by Check (and Ping) is "ok" if and only if
    every per-checker result is "ok", and it is "error" otherwise; with
    three registered checkers of which exactly one returns an error and
    two return nil, the call returns the status "error" with exactly one
    "error" result and two "ok" results. *)
Theorem overall_status_ok_iff_every_check_ok k m ctx now tasks :
  schedule m tasks →
  (∀ st, run k m ctx now tasks = Returned st →
     (HealthStatus.Status st = "ok"
      ↔ ∀ n r, HealthStatus.Checks st !! n = Some r →
               CheckResult.Status r = "ok")
     ∧ (HealthStatus.Status st ≠ "ok" → HealthStatus.Status st = "error"))
  ∧ (size (checkers m) = 3 →
     size (filter (λ kv, failing (probeOf k) (deadline m ctx) kv = true)
             (checkers m)) = 1 →
     size (filter (λ kv, passing (probeOf k) (deadline m ctx) kv = true)
             (checkers m)) = 2 →
     ∃ st, run k m ctx now tasks = Returned st
           ∧ HealthStatus.Status st = "error"
           ∧ countStatus "error" (HealthStatus.Checks st) = 1
           ∧ countStatus "ok" (HealthStatus.Checks st) = 2).
Proof.
  intros Hs. rewrite run_aggregate. split.
  - intros st Hrun.
    apply (aggregate_returned _ _ _ _ _ _ Hs) in Hrun
      as (Hchecks & _ & Hok & Hnp & Hvals).
    split; [|destruct Hvals; done].
    rewrite Hok, Hchecks. split.
    + intros H n r. rewrite lookup_fmap.
      destruct (checkers m !! n) as [c|] eqn:Hc; [|discriminate].
      intros [= <-]. apply verdict_ok; eauto.
    + intros H n c Hc. apply verdict_ok; [eauto|].
      apply (H n). now rewrite lookup_fmap, Hc.
  - intros H3 H1 H2.
    assert (Hnp : ∀ n c, checkers m !! n = Some c →
                         probeOf k c (deadline m ctx) ≠ Panicked).
    { apply probes_return_of_counts. lia. }
    destruct (aggregate_total (probeOf k) m ctx now tasks Hs Hnp) as [st Hrun].
    exists st. split; [exact Hrun|].
    apply (aggregate_returned _ _ _ _ _ _ Hs) in Hrun
      as (Hchecks & _ & Hok & _ & Hvals).
    assert (Herr : countStatus "error" (HealthStatus.Checks st) = 1).
    { rewrite <- H1, Hchecks. apply countStatus_verdict. intros n c Hc.
      rewrite verdict_error by eauto. unfold failing. simpl.
      destruct (probeOf k c (deadline m ctx)) as [[msg|]|].
      - split; eauto.
      - split; [intros [? [=]]|discriminate].
      - split; [intros [? [=]]|discriminate]. }
    assert (Hpass : countStatus "ok" (HealthStatus.Checks st) = 2).
    { rewrite <- H2, Hchecks. apply countStatus_verdict. intros n c Hc.
      rewrite verdict_ok by eauto. unfold passing. simpl.
      destruct (probeOf k c (deadline m ctx)) as [[msg|]|]; split; done. }
    split; [|done].
    destruct Hvals as [Hk|Hk]; [|exact Hk].
    exfalso. rewrite Hok in Hk.
    assert (filter (λ kv, failing (probeOf k) (deadline m ctx) kv = true)
              (checkers m) = ∅) as Hemp.
    { apply map_empty_filter_2. intros n c Hc. unfold failing. simpl.
      now rewrite (Hk n c Hc). }
    rewrite Hemp, map_size_empty in H1. discriminate.
Qed.

Lemma overall_status_ok_iff_every_check_ok_witness :
  ∃ st,
    run readiness sample.three_checkers context.Background sample.noon
      (map_to_list (checkers sample.three_checkers)) = Returned st
    ∧ HealthStatus.Status st = "error"
    ∧ countStatus "error" (HealthStatus.Checks st) = 1
    ∧ countStatus "ok" (HealthStatus.Checks st) = 2.
Proof.
  apply (overall_status_ok_iff_every_check_ok readiness sample.three_checkers
           context.Background sample.noon _ (reflexivity _));
    vm_compute; reflexivity.
Defined.

(** C9. After every completed Ping or Check call, the returned Checks map
    has exactly one entry per checker registered at the time of the call:
    its key set is the set of registered names, whatever number of
    checkers fail, and each entry is the result of that checker's probe.
    The call completes whenever no probe panics. *)
Theorem checks_keys_are_the_registered_names k m ctx now tasks :
  schedule m tasks →
  ((∀ n c, checkers m !! n = Some c →
           probeOf k c (deadline m ctx) ≠ Panicked) →
   ∃ st, run k m ctx now tasks = Returned st)
  ∧ ∀ st, run k m ctx now tasks = Returned st →
      dom (HealthStatus.Checks st) = dom (checkers m)
      ∧ size (HealthStatus.Checks st) = size (checkers m)
      ∧ ∀ n c, checkers m !! n = Some c →
          HealthStatus.Checks st !! n
          = Some (verdict (probeOf k) (deadline m ctx) c).
Proof.
  intros Hs. rewrite run_aggregate. split; [by apply aggregate_total|].
  intros st Hrun.
  apply (aggregate_returned _ _ _ _ _ _ Hs) in Hrun as (Hchecks & _).
  rewrite Hchecks. split; [apply dom_fmap_L|].
  split; [apply map_size_fmap|].
  intros n c Hc. now rewrite lookup_fmap, Hc.
Qed.

Lemma checks_keys_are_the_registered_names_witness :
  run liveness sample.three_checkers context.Background sample.noon
    (map_to_list (checkers sample.three_checkers))
  = Returned sample.three_status
  ∧ dom (HealthStatus.Checks sample.three_status)
    = dom (checkers sample.three_checkers)
  ∧ size (HealthStatus.Checks sample.three_status) = 3.
Proof.
  assert (Hrun : run liveness sample.three_checkers context.Background
                   sample.noon (map_to_list (checkers sample.three_checkers))
                 = Returned sample.three_status)
    by (vm_compute; reflexivity).
  split; [exact Hrun|].
  destruct (checks_keys_are_the_registered_names liveness
              sample.three_checkers context.Background sample.noon _
              (reflexivity _)) as [_ Hkeys].
  destruct (Hkeys _ Hrun) as (Hdom & Hsize & _).
  split; [exact Hdom|]. rewrite Hsize. vm_compute. reflexivity.
Defined.

(** C6. Registering A and then A' under the same name leaves exactly one
    entry for that name, which is A': the second registration adds no
    key, changes no other entry, and an aggregation round reports A'
    under that name. Register never returns an error. *)
Theorem Register_same_name_overwrites m A A' :
  HealthChecker.Name A = HealthChecker.Name A' →
  (Register m A).2 = None
  ∧ (Register (Register m A).1 A').2 = None
  ∧ checkers (Register (Register m A).1 A').1 !! HealthChecker.Name A = Some A'
  ∧ dom (checkers (Register (Register m A).1 A').1)
    = dom (checkers (Register m A).1)
  ∧ size (checkers (Register (Register m A).1 A').1)
    = size (checkers (Register m A).1)
  ∧ (∀ n, n ≠ HealthChecker.Name A →
       checkers (Register (Register m A).1 A').1 !! n = checkers m !! n)
  ∧ (∀ k ctx now tasks st,
       schedule (Register (Register m A).1 A').1 tasks →
       run k (Register (Register m A).1 A').1 ctx now tasks = Returned st →
       HealthStatus.Checks st !! HealthChecker.Name A
       = Some (verdict (probeOf k)
                 (deadline (Register (Register m A).1 A').1 ctx) A')).
Proof.
  intros Hname. simpl. rewrite <- Hname.
  assert (Hlook : (<[HealthChecker.Name A := A']>
                     (<[HealthChecker.Name A := A]> (checkers m)))
                  !! HealthChecker.Name A = Some A')
    by apply lookup_insert_eq.
  repeat split; try done.
  - now rewrite insert_insert_eq, !dom_insert_L.
  - rewrite insert_insert_eq.
    destruct (checkers m !! HealthChecker.Name A) eqn:Hm.
    + rewrite !map_size_insert_Some; eauto.
    + now rewrite !map_size_insert_None.
  - intros n Hn. now rewrite !lookup_insert_ne.
  - intros k ctx now tasks st Hs Hrun.
    rewrite run_aggregate in Hrun.
    apply (aggregate_returned _ _ _ _ _ _ Hs) in Hrun as (-> & _).
    simpl. rewrite lookup_fmap. simpl.
    now rewrite lookup_insert_eq.
Qed.

Lemma Register_same_name_overwrites_witness :
  checkers (Register (Register (NewManager sample.healthConfig)
                        (sample.steady "main" (Returned None))).1
              (sample.steady "main" (Returned (Some "down")))).1
    !! "main"
  = Some (sample.steady "main" (Returned (Some "down")))
  ∧ size (checkers (Register (Register (NewManager sample.healthConfig)
                        (sample.steady "main" (Returned None))).1
              (sample.steady "main" (Returned (Some "down")))).1) = 1.
Proof.
  destruct (Register_same_name_overwrites (NewManager sample.healthConfig)
              (sample.steady "main" (Returned None))
              (sample.steady "main" (Returned (Some "down")))
              eq_refl) as (_ & _ & Hlook & _ & Hsize & _).
  split; [exact Hlook|]. rewrite Hsize. vm_compute. reflexivity.
Defined.

(** C7 (amended). In a Ping or Check fan-out in which no checker panics,
    an error returned by one checker's task does not abort or affect any
    other task: every other registered checker's result is recorded
    exactly as it would be if the failing checker were absent, and the
    aggregation call completes normally. *)
Theorem checker_error_is_isolated k m f cf msg ctx now :
  checkers m !! f = Some cf →
  probeOf k cf (deadline m ctx) = Returned (Some msg) →
  (∀ n c, n ≠ f → checkers m !! n = Some c →
          probeOf k c (deadline m ctx) ≠ Panicked) →
  isolated k m f ctx now.
Proof.
  intros Hf Hcf Hothers tasks tasks' Hs Hs'.
  rewrite !run_aggregate.
  assert (Hall : ∀ n c, checkers m !! n = Some c →
                        probeOf k c (deadline m ctx) ≠ Panicked).
  { intros n c Hc. destruct (decide (n = f)) as [->|Hne]; [|eauto].
    rewrite Hf in Hc. injection Hc as <-. now rewrite Hcf. }
  destruct (aggregate_total (probeOf k) m ctx now tasks Hs Hall) as [st Hst].
  destruct (aggregate_total (probeOf k) (without f m) ctx now tasks' Hs')
    as [st' Hst'].
  { intros n c Hc. simpl in Hc. apply lookup_delete_Some in Hc as [Hne Hc].
    apply (Hall n c Hc). }
  exists st, st'. split; [exact Hst|]. split; [exact Hst'|].
  apply (aggregate_returned _ _ _ _ _ _ Hs) in Hst as (-> & _).
  apply (aggregate_returned _ _ _ _ _ _ Hs') in Hst' as (-> & _).
  intros n Hne. simpl. rewrite !lookup_fmap, lookup_delete_ne by done.
  reflexivity.
Qed.

Lemma three_checkers_others_return n c :
  n ≠ "cache" → checkers sample.three_checkers !! n = Some c →
  probeOf readiness c (deadline sample.three_checkers context.Background)
  ≠ Panicked.
Proof.
  intros Hne Hc.
  change (checkers sample.three_checkers)
    with (<["search" := sample.steady "search" (Returned None)]>
            (<["cache" := sample.steady "cache"
                            (Returned (Some "connection refused"))]>
               (<["main" := sample.steady "main" (Returned None)]>
                  (∅ : gmap string HealthChecker.t))))
    in Hc.
  apply lookup_insert_Some in Hc as [[_ <-]|[_ Hc]]; [discriminate|].
  apply lookup_insert_Some in Hc as [[Heq _]|[_ Hc]]; [congruence|].
  apply lookup_insert_Some in Hc as [[_ <-]|[_ Hc]]; [discriminate|].
  by rewrite lookup_empty in Hc.
Qed.

Lemma checker_error_is_isolated_witness :
  isolated readiness sample.three_checkers "cache" context.Background
    sample.noon.
Proof.
  apply (checker_error_is_isolated readiness sample.three_checkers "cache"
           (sample.steady "cache" (Returned (Some "connection refused")))
           "connection refused").
  - vm_compute. reflexivity.
  - reflexivity.
  - exact three_checkers_others_return.
Defined.

(** C7 as stated fails for a panic: with a checker that panics, every
    other checker returning nil, the round does not complete. *)
Lemma checker_panic_is_not_isolated :
  checkers sample.panicky !! "cache" = Some (sample.steady "cache" Panicked)
  ∧ checkers sample.panicky !! "main"
    = Some (sample.steady "main" (Returned None))
  ∧ dom (checkers sample.panicky) = {["cache"; "main"]}
  ∧ Check sample.panicky context.Background sample.noon
      (map_to_list (checkers sample.panicky)) = Panicked
  ∧ ¬ isolated readiness sample.panicky "cache" context.Background sample.noon.
Proof.
  split; [vm_compute; reflexivity|]. split; [vm_compute; reflexivity|].
  split; [vm_compute; reflexivity|]. split; [vm_compute; reflexivity|].
  intros H.
  destruct (H (map_to_list (checkers sample.panicky))
              (map_to_list (checkers (without "cache" sample.panicky)))
              (reflexivity _) (reflexivity _)) as (st & st' & Hrun & _).
  vm_compute in Hrun. discriminate Hrun.
Qed.

End health_claims.

(** ** Construction of databases and of the registry *)

Section construction.

Import database.

Variable E : Env.

Lemma connect_cases cfg instance rt :
  connect E cfg instance rt
  = match connectError E cfg instance with
    | Some err => (rt, Err err)
    | None => (opened rt, Ok (handle (nextPool rt)))
    end.
Proof.
  unfold connect, connectError. destruct (dialectorFor cfg instance) as [d|err].
  - unfold Open. destruct (gorm_Open E d); reflexivity.
  - reflexivity.
Qed.

Lemma DB_cases x rt :
  DB E x rt
  = match gorm_DB E (gorm.ConnPool x) with
    | Some err => (rt, Err err)
    | None => (rt, Ok (gorm.ConnPool x))
    end.
Proof. reflexivity. Qed.

Lemma warned_nil rt : warned [] rt = rt.
Proof. destruct rt. unfold warned. simpl. by rewrite app_nil_r. Qed.

(** [Trace] only logs, and of what it logs only a slow-query warning
    reaches [log.Warn]. *)
Lemma Trace_cases l elapsed err rt :
  GormLogger.Trace E l elapsed err rt
  = (warned (traced E l elapsed err) rt, Ok ()).
Proof.
  unfold GormLogger.Trace, traced, slow, gormlogger.Silent, gormlogger.Error,
    gormlogger.Warn, gormlogger.Info, LogError, LogDebug.
  destruct (Z.leb_spec (GormLogger.logLevel l) 1) as [Hs|Hs].
  { destruct (Z.leb_spec 3 (GormLogger.logLevel l)) as [Hw|Hw]; [lia|].
    rewrite !andb_false_r. simpl. by rewrite warned_nil. }
  destruct (Z.leb_spec 2 (GormLogger.logLevel l)) as [He|He]; [|lia].
  destruct err as [e|].
  - simpl. destruct (errors_Is_ErrRecordNotFound E e); simpl.
    + rewrite andb_true_r.
      destruct ((GormLogger.slowThreshold l <? elapsed)%Z
                && negb (GormLogger.slowThreshold l =? 0)%Z
                && (3 <=? GormLogger.logLevel l)%Z); [reflexivity|].
      destruct (4 <=? GormLogger.logLevel l)%Z;
        unfold ret; by rewrite warned_nil.
    + rewrite andb_false_r. unfold ret. by rewrite warned_nil.
  - rewrite andb_true_r.
    destruct ((GormLogger.slowThreshold l <? elapsed)%Z
              && negb (GormLogger.slowThreshold l =? 0)%Z
              && (3 <=? GormLogger.logLevel l)%Z); [reflexivity|].
    destruct (4 <=? GormLogger.logLevel l)%Z;
      unfold ret; by rewrite warned_nil.
Qed.

Lemma traced_verification cfg id :
  length (traced E (loggerOf cfg)
            (time_Since E id context.Background "SELECT 1") None)
  = verificationWarnings E cfg id.
Proof.
  unfold traced, verificationWarnings. rewrite andb_true_r.
  by destruct (slow _ _).
Qed.

Lemma Exec_cases l x ctx sql rt :
  Exec E l x ctx sql rt
  = (warned (traced E l (time_Since E (gorm.ConnPool x) ctx sql)
               (gorm_Exec E (gorm.ConnPool x) ctx sql)) rt,
     match gorm_Exec E (gorm.ConnPool x) ctx sql with
     | Some e => Err e
     | None => Ok ()
     end).
Proof.
  unfold Exec, bind. rewrite Trace_cases.
  destruct (gorm_Exec E (gorm.ConnPool x) ctx sql); reflexivity.
Qed.

(** *** What construction leaves untouched *)

Lemma connectSlaves_healthMgr cfg todo i acc rt rt' r :
  connectSlaves E cfg i todo acc rt = (rt', r) →
  healthMgr rt' = healthMgr rt ∧ stdout rt' = stdout rt.
Proof.
  revert i acc rt. induction todo as [|s rest IH]; intros i acc rt.
  - intros [= <- <-]. done.
  - simpl. rewrite connect_cases.
    destruct (connectError E cfg s) as [err|].
    + unfold bind, Warn. intros H%IH. exact H.
    + rewrite DB_cases. simpl.
      destruct (gorm_DB E (nextPool rt)); [intros [= <- <-]; done|].
      unfold bind, configurePool. intros H%IH. exact H.
Qed.

(** A failed connection to a slave only logs a warning: the slave is
    left out and the loop goes on with the remaining endpoints. *)
Lemma connectSlaves_skips cfg s rest i acc rt err :
  connectError E cfg s = Some err →
  connectSlaves E cfg i (s :: rest) acc rt
  = connectSlaves E cfg (S i) rest acc
      {| pools := pools rt; nextPool := nextPool rt;
         warnings := (warnings rt
           ++ ["failed to connect to slave database " +:+ pretty i
               +:+ ": " +:+ err])%list;
         stdout := stdout rt; healthMgr := healthMgr rt |}.
Proof. intros H. simpl. rewrite connect_cases, H. reflexivity. Qed.

Lemma reachable_cons cfg s rest :
  reachable E cfg (s :: rest)
  = match connectError E cfg s with
    | None => s :: reachable E cfg rest
    | Some _ => reachable E cfg rest
    end.
Proof.
  unfold reachable. rewrite filter_cons.
  destruct (decide (connectError E cfg s = None)) as [->|Hn]; [done|].
  destruct (connectError E cfg s); done.
Qed.

(** When every handle yields its [sql.DB], the loop returns the handles
    of the reachable slaves, in order, on fresh pools. *)
Lemma connectSlaves_reachable cfg todo i acc rt :
  (∀ p, gorm_DB E p = None) →
  ∃ rt',
    connectSlaves E cfg i todo acc rt
    = (rt', Ok (acc ++ ((λ j, handle (nextPool rt + N.of_nat j)%N)
                          <$> seq 0 (length (reachable E cfg todo))))%list)
    ∧ nextPool rt' = (nextPool rt + N.of_nat (length (reachable E cfg todo)))%N
    ∧ healthMgr rt' = healthMgr rt
    ∧ length (warnings rt')
      = length (warnings rt) + (length todo - length (reachable E cfg todo)).
Proof.
  intros Hdb. revert i acc rt. induction todo as [|s rest IH]; intros i acc rt.
  - exists rt. simpl. rewrite app_nil_r, N.add_0_r.
    repeat split; lia.
  - simpl connectSlaves. rewrite connect_cases, reachable_cons.
    pose proof (length_filter (λ s, connectError E cfg s = None) rest) as Hle.
    fold (reachable E cfg rest) in Hle.
    destruct (connectError E cfg s) as [err|].
    + unfold bind, Warn.
      edestruct IH as (rt' & -> & Hn & Hh & Hw).
      exists rt'. simpl in *. rewrite length_app in Hw. simpl in Hw.
      repeat split; [done|done|lia].
    + rewrite DB_cases, Hdb. unfold bind, configurePool.
      edestruct IH as (rt' & -> & Hn & Hh & Hw).
      exists rt'. simpl in *. split; [|repeat split; [lia|done|lia]].
      f_equal. f_equal. rewrite <- app_assoc. f_equal. simpl.
      rewrite N.add_0_r. f_equal.
      rewrite <- fmap_S_seq, <- list_fmap_compose.
      apply list_fmap_ext. intros _ j _. simpl. f_equal. lia.
Qed.

(** *** [New] *)

(** The runtime once the master is connected and its pool configured. *)
Lemma New_after_master cfg rt :
  connectError E cfg (config.Master cfg) = None →
  gorm_DB E (nextPool rt) = None →
  New E cfg rt
  = (let* slaves := connectSlaves E cfg 0 (config.Slaves cfg) [] in
     let* _ := wrap "failed to verify database connection"
                 (Exec E (loggerOf cfg) (handle (nextPool rt))
                    context.Background "SELECT 1") in
     let* _ := registerChecker
                 (DatabaseHealthChecker.asHealthChecker E
                    {| DatabaseHealthChecker.name := config.Name cfg;
                       DatabaseHealthChecker.db := handle (nextPool rt) |}) in
     ret {| Database.name := config.Name cfg; Database.config := cfg;
            Database.master := handle (nextPool rt);
            Database.slaves := slaves; Database.slaveIndex := 0 |})
      (configurePool cfg (nextPool rt) (opened rt)).1.
Proof.
  intros Hc Hdb. unfold New at 1. unfold bind at 1. unfold wrap at 1.
  rewrite connect_cases, Hc. unfold bind at 1. unfold wrap at 1.
  rewrite DB_cases. simpl gorm.ConnPool. rewrite Hdb.
  reflexivity.
Qed.

Lemma New_master_unreachable cfg rt err :
  connectError E cfg (config.Master cfg) = Some err →
  New E cfg rt = (rt, Err ("failed to connect to master database: " +:+ err)).
Proof.
  intros Hc. unfold New, bind, wrap. rewrite connect_cases, Hc. reflexivity.
Qed.

Lemma New_verification_fails cfg rt rt' r err :
  connectError E cfg (config.Master cfg) = None →
  gorm_Exec E (nextPool rt) context.Background "SELECT 1" = Some err →
  New E cfg rt = (rt', r) →
  pointer r = None
  ∧ ((∀ p, gorm_DB E p = None) →
     r = Err ("failed to verify database connection: " +:+ err)).
Proof.
  intros Hc Hx.
  destruct (gorm_DB E (nextPool rt)) as [e|] eqn:Hdb.
  - unfold New, bind, wrap. rewrite connect_cases, Hc, DB_cases. simpl.
    rewrite Hdb. intros [= <- <-]. split; [done|].
    intros Hall. now rewrite Hall in Hdb.
  - rewrite (New_after_master _ _ Hc Hdb). unfold bind at 1.
    destruct (connectSlaves _ _ _ _ _ _) as [rt3 [slaves|e|]] eqn:Hs.
    + unfold bind at 1. unfold wrap. rewrite Exec_cases. simpl gorm.ConnPool. rewrite Hx.
      intros [= <- <-]. done.
    + intros [= <- <-]. split; [done|]. intros Hall.
      destruct (connectSlaves_reachable cfg (config.Slaves cfg) 0 []
                  (configurePool cfg (nextPool rt) (opened rt)).1 Hall)
        as (? & Heq & _).
      rewrite Heq in Hs. discriminate.
    + intros [= <- <-]. split; [done|]. intros Hall.
      destruct (connectSlaves_reachable cfg (config.Slaves cfg) 0 []
                  (configurePool cfg (nextPool rt) (opened rt)).1 Hall)
        as (? & Heq & _).
      rewrite Heq in Hs. discriminate.
Qed.

Lemma New_constructs cfg rt :
  connectError E cfg (config.Master cfg) = None →
  (∀ p, gorm_DB E p = None) →
  gorm_Exec E (nextPool rt) context.Background "SELECT 1" = None →
  ∃ rt' db,
    New E cfg rt = (rt', Ok db)
    ∧ Database.name db = config.Name cfg
    ∧ Database.master db = handle (nextPool rt)
    ∧ Database.slaves db
      = (λ j, handle (N.succ (nextPool rt) + N.of_nat j)%N)
          <$> seq 0 (length (reachable E cfg (config.Slaves cfg)))
    ∧ Database.slaveIndex db = 0%N
    ∧ length (warnings rt')
      = length (warnings rt)
        + (length (config.Slaves cfg)
           - length (reachable E cfg (config.Slaves cfg)))
        + verificationWarnings E cfg (nextPool rt).
Proof.
  intros Hc Hall Hx. rewrite (New_after_master _ _ Hc (Hall _)).
  unfold bind at 1.
  destruct (connectSlaves_reachable cfg (config.Slaves cfg) 0 []
              (configurePool cfg (nextPool rt) (opened rt)).1 Hall)
    as (rt3 & -> & Hn & Hh & Hw).
  unfold bind at 1. unfold wrap. rewrite Exec_cases. simpl gorm.ConnPool.
  rewrite Hx. unfold bind, registerChecker, ret.
  change (healthMgr (warned ?m rt3)) with (healthMgr rt3).
  destruct (healthMgr rt3); eexists _, _; (split; [reflexivity|]);
    simpl in *; rewrite length_app, traced_verification;
    repeat split; lia.
Qed.

(** What [New] does to the health manager and to standard output. *)
Lemma New_registers cfg rt rt' r :
  New E cfg rt = (rt', r) →
  stdout rt' = stdout rt
  ∧ match r with
    | Ok db =>
        Database.name db = config.Name cfg
        ∧ healthMgr rt'
          = (λ m, (health.Register m
                     (DatabaseHealthChecker.asHealthChecker E
                        {| DatabaseHealthChecker.name := config.Name cfg;
                           DatabaseHealthChecker.db := Database.master db |})).1)
              <$> healthMgr rt
    | _ => healthMgr rt' = healthMgr rt
    end.
Proof.
  destruct (connectError E cfg (config.Master cfg)) as [err|] eqn:Hc.
  { rewrite (New_master_unreachable _ _ _ Hc). intros [= <- <-]. done. }
  destruct (gorm_DB E (nextPool rt)) as [e|] eqn:Hdb.
  { unfold New, bind, wrap. rewrite connect_cases, Hc, DB_cases. simpl.
    rewrite Hdb. intros [= <- <-]. done. }
  rewrite (New_after_master _ _ Hc Hdb). unfold bind at 1.
  destruct (connectSlaves _ _ _ _ _ _) as [rt3 [slaves|e|]] eqn:Hs;
    apply connectSlaves_healthMgr in Hs as [Hh Ho]; simpl in Hh, Ho;
    [|intros [= <- <-]; done..].
  unfold bind at 1. unfold wrap. rewrite Exec_cases. simpl gorm.ConnPool.
  destruct (gorm_Exec E (nextPool rt) context.Background "SELECT 1").
  { intros [= <- <-]. done. }
  unfold bind, registerChecker, ret.
  change (healthMgr (warned ?m rt3)) with (healthMgr rt3).
  destruct (healthMgr rt3) as [hm|] eqn:Hm; intros [= <- <-]; simpl;
    rewrite <- Hh; done.
Qed.

(** C5. In New, a failure to connect to the master and a failure of the
    final SELECT 1 on the master are fatal: New returns an error and no
    instance. A failure to connect to a configured slave is not fatal:
    the loop logs a warning, leaves that slave out and goes on, and New
    returns an instance whose active slaves are the reachable ones.
    log.Warn then received one message per unreachable slave and, when
    the trace of the SELECT 1 reports it as slow, the slow-query message
    besides. *)
Theorem New_master_failures_fatal_slave_failures_not cfg rt :
  (∀ err, connectError E cfg (config.Master cfg) = Some err →
     New E cfg rt
     = (rt, Err ("failed to connect to master database: " +:+ err)))
  ∧ (∀ err rt' r,
       connectError E cfg (config.Master cfg) = None →
       gorm_Exec E (nextPool rt) context.Background "SELECT 1" = Some err →
       New E cfg rt = (rt', r) →
       pointer r = None
       ∧ ((∀ p, gorm_DB E p = None) →
          r = Err ("failed to verify database connection: " +:+ err)))
  ∧ (∀ s rest i acc rt0 err,
       connectError E cfg s = Some err →
       connectSlaves E cfg i (s :: rest) acc rt0
       = connectSlaves E cfg (S i) rest acc
           {| pools := pools rt0; nextPool := nextPool rt0;
              warnings := (warnings rt0
                ++ ["failed to connect to slave database " +:+ pretty i
                    +:+ ": " +:+ err])%list;
              stdout := stdout rt0; healthMgr := healthMgr rt0 |})
  ∧ (connectError E cfg (config.Master cfg) = None →
     (∀ p, gorm_DB E p = None) →
     gorm_Exec E (nextPool rt) context.Background "SELECT 1" = None →
     ∃ rt' db,
       New E cfg rt = (rt', Ok db)
       ∧ Database.master db = handle (nextPool rt)
       ∧ length (Database.slaves db)
         = length (reachable E cfg (config.Slaves cfg))
       ∧ length (warnings rt')
         = length (warnings rt)
           + (length (config.Slaves cfg)
              - length (reachable E cfg (config.Slaves cfg)))
           + verificationWarnings E cfg (nextPool rt)).
Proof.
  split; [intros err; apply New_master_unreachable|].
  split; [intros err rt' r; apply New_verification_fails|].
  split; [intros s rest i acc rt0 err; apply connectSlaves_skips|].
  intros Hc Hall Hx.
  destruct (New_constructs cfg rt Hc Hall Hx)
    as (rt' & db & HN & _ & Hm & Hs & _ & Hw).
  exists rt', db. rewrite Hs, length_fmap, length_seq. done.
Qed.

(** *** The loop of [NewManager] *)

Lemma initAll_cons cfg rest mgr rt :
  initAll E (cfg :: rest) mgr rt
  = match New E cfg rt with
    | (rt1, Ok db) =>
        initAll E rest
          {| Manager.databases :=
               <[config.Name cfg := db]> (Manager.databases mgr) |} rt1
    | (rt1, Err err) =>
        (rt1, Err ("failed to initialize database " +:+ config.Name cfg
                   +:+ ": " +:+ err))
    | (rt1, Panic) => (rt1, Panic)
    end.
Proof.
  simpl. unfold bind, wrap. destruct (New E cfg rt) as [rt1 [db|err|]]; done.
Qed.

Lemma initAll_app cs1 cs2 mgr rt :
  initAll E (cs1 ++ cs2) mgr rt
  = match initAll E cs1 mgr rt with
    | (rt1, Ok mgr1) => initAll E cs2 mgr1 rt1
    | (rt1, Err err) => (rt1, Err err)
    | (rt1, Panic) => (rt1, Panic)
    end.
Proof.
  revert mgr rt. induction cs1 as [|c cs1 IH]; intros mgr rt; [done|].
  rewrite <- app_comm_cons, !initAll_cons.
  destruct (New E c rt) as [rt1 [db|err|]]; [apply IH|done|done].
Qed.

Lemma initAll_first_failure cs1 c cs2 mgr rt rt1 mgr1 rt2 e :
  initAll E cs1 mgr rt = (rt1, Ok mgr1) →
  New E c rt1 = (rt2, Err e) →
  initAll E (cs1 ++ c :: cs2) mgr rt
  = (rt2, Err ("failed to initialize database " +:+ config.Name c
               +:+ ": " +:+ e)).
Proof.
  intros H1 H2. now rewrite initAll_app, H1, initAll_cons, H2.
Qed.

(** Every error of the loop is that of a first failing construction. *)
Lemma initAll_error_inv cs mgr rt rt' e :
  initAll E cs mgr rt = (rt', Err e) →
  ∃ cs1 c cs2 rt1 mgr1 e0,
    cs = (cs1 ++ c :: cs2)%list
    ∧ initAll E cs1 mgr rt = (rt1, Ok mgr1)
    ∧ New E c rt1 = (rt', Err e0)
    ∧ e = "failed to initialize database " +:+ config.Name c +:+ ": " +:+ e0.
Proof.
  revert mgr rt. induction cs as [|a rest IH]; intros mgr rt; [done|].
  rewrite initAll_cons.
  destruct (New E a rt) as [rt1 [db|err|]] eqn:HN; [| |done].
  - intros (cs1 & c & cs2 & rt2 & mgr1 & e0 & -> & H1 & H2 & ->)%IH.
    exists (a :: cs1), c, cs2, rt2, mgr1, e0. split; [done|].
    split; [|done]. now rewrite initAll_cons, HN.
  - intros [= <- <-]. exists [], a, rest, rt, mgr, err. done.
Qed.

(** A successful loop registers every configuration under its name. *)
Lemma initAll_success cs mgr rt rt' mgr' :
  initAll E cs mgr rt = (rt', Ok mgr') →
  (∀ cfg, cfg ∈ cs →
     ∃ db, Manager.Get mgr' (config.Name cfg) = Some db
           ∧ Database.name db = config.Name cfg)
  ∧ (∀ name db, Manager.databases mgr !! name = Some db →
       Database.name db = name →
       ∃ db', Manager.databases mgr' !! name = Some db'
              ∧ Database.name db' = name).
Proof.
  revert mgr rt. induction cs as [|a rest IH]; intros mgr rt.
  - intros [= <- <-]. split; [|eauto]. intros cfg Hin.
    by apply elem_of_nil in Hin.
  - rewrite initAll_cons.
    destruct (New E a rt) as [rt1 [db|err|]] eqn:HN; [|done..].
    intros [Hin Hkeep]%IH. apply New_registers in HN as [_ [Hname _]].
    split.
    + intros cfg [->|Hc]%elem_of_cons; [|by apply Hin].
      apply (Hkeep _ db); [|done]. simpl. apply lookup_insert_eq.
    + intros name d Hd Hn. destruct (decide (config.Name a = name)) as [<-|Hne].
      * apply (Hkeep _ db); [|done]. simpl. apply lookup_insert_eq.
      * apply (Hkeep _ d); [|done]. simpl. now rewrite lookup_insert_ne.
Qed.

(** The loop keeps the registry and the health manager linked, and only
    adds checkers. *)
Lemma initAll_linked cs mgr rt rt' mgr' hm :
  initAll E cs mgr rt = (rt', Ok mgr') →
  healthMgr rt = Some hm →
  linked E mgr hm →
  ∃ hm', healthMgr rt' = Some hm'
         ∧ linked E mgr' hm'
         ∧ dom (health.checkers hm) ⊆ dom (health.checkers hm').
Proof.
  revert mgr rt hm. induction cs as [|a rest IH]; intros mgr rt hm.
  - intros [= <- <-] Hh Hl. exists hm. done.
  - rewrite initAll_cons.
    destruct (New E a rt) as [rt1 [db|err|]] eqn:HN; [|done..].
    intros Hrest Hh Hl. apply New_registers in HN as [_ [Hname Hreg]].
    rewrite Hh in Hreg. simpl in Hreg.
    destruct (IH _ _ _ Hrest Hreg) as (hm' & Hh' & Hl' & Hdom).
    + intros name d. simpl.
      destruct (decide (config.Name a = name)) as [<-|Hne].
      * rewrite !lookup_insert_eq. intros [= <-]. done.
      * rewrite !lookup_insert_ne by done. apply Hl.
    + exists hm'. split; [done|]. split; [done|].
      etrans; [|exact Hdom]. simpl. rewrite dom_insert_L.
      apply union_subseteq_r.
Qed.

(** C4. NewManager constructs the instances in list order. The first
    construction that fails aborts the whole operation: the error names
    the offending instance, nothing after it is attempted, and no Manager
    is returned, so no instance of the list can be retrieved through Get.
    Every error of NewManager arises this way, and when NewManager does
    return a Manager every configured instance is retrievable from it. *)
Theorem NewManager_first_failure_aborts cs1 c cs2 rt rt1 rt2 mgr1 e :
  NewManager E cs1 rt = (rt1, Ok mgr1) →
  New E c rt1 = (rt2, Err e) →
  NewManager E (cs1 ++ c :: cs2) rt
  = (rt2, Err ("failed to initialize database " +:+ config.Name c
               +:+ ": " +:+ e))
  ∧ pointer (NewManager E (cs1 ++ c :: cs2) rt).2 = None
  ∧ (∀ configs rt0 rt' err,
       NewManager E configs rt0 = (rt', Err err) →
       ∃ l1 x l2 rt1' mgr1' e0,
         configs = (l1 ++ x :: l2)%list
         ∧ NewManager E l1 rt0 = (rt1', Ok mgr1')
         ∧ New E x rt1' = (rt', Err e0)
         ∧ err = "failed to initialize database " +:+ config.Name x
                 +:+ ": " +:+ e0)
  ∧ (∀ configs rt0 rt' mgr,
       NewManager E configs rt0 = (rt', Ok mgr) →
       ∀ cfg, cfg ∈ configs →
         ∃ db, Manager.Get mgr (config.Name cfg) = Some db
               ∧ Database.name db = config.Name cfg).
Proof.
  intros H1 H2. unfold NewManager in *.
  rewrite (initAll_first_failure _ _ cs2 _ _ _ _ _ _ H1 H2).
  split; [done|]. split; [done|]. split.
  - intros configs rt0 rt' err. apply initAll_error_inv.
  - intros configs rt0 rt' mgr H. apply (initAll_success _ _ _ _ _ H).
Qed.

(** C10. When NewManager fails on a later entry, the checkers that the
    earlier, successfully constructed instances registered remain in the
    health manager: each of these instances still has its checker there,
    nothing registered before is removed, and every completed Ping or
    Check round reports on them, although no registry was returned. *)
Theorem failed_NewManager_keeps_registered_checkers
    cs1 c cs2 rt rt1 rt2 mgr1 e hm :
  healthMgr rt = Some hm →
  NewManager E cs1 rt = (rt1, Ok mgr1) →
  New E c rt1 = (rt2, Err e) →
  ∃ rt' err hm',
    NewManager E (cs1 ++ c :: cs2) rt = (rt', Err err)
    ∧ healthMgr rt' = Some hm'
    ∧ (∀ cfg, cfg ∈ cs1 →
         ∃ db, Manager.Get mgr1 (config.Name cfg) = Some db
               ∧ health.checkers hm' !! config.Name cfg
                 = Some (DatabaseHealthChecker.asHealthChecker E
                           {| DatabaseHealthChecker.name := config.Name cfg;
                              DatabaseHealthChecker.db := Database.master db |}))
    ∧ dom (health.checkers hm) ⊆ dom (health.checkers hm')
    ∧ (∀ k ctx now tasks st,
         health.schedule hm' tasks →
         health.run k hm' ctx now tasks = Returned st →
         ∀ cfg, cfg ∈ cs1 →
           is_Some (health.HealthStatus.Checks st !! config.Name cfg)).
Proof.
  intros Hh H1 H2. unfold NewManager in *.
  rewrite (initAll_first_failure _ _ cs2 _ _ _ _ _ _ H1 H2).
  destruct (initAll_linked _ _ _ _ _ hm H1 Hh) as (hm' & Hh' & Hl & Hdom).
  { intros name db. simpl. by rewrite lookup_empty. }
  apply New_registers in H2 as [_ Hkeep]. rewrite Hh' in Hkeep.
  assert (Hreg : ∀ cfg, cfg ∈ cs1 →
            ∃ db, Manager.Get mgr1 (config.Name cfg) = Some db
                  ∧ health.checkers hm' !! config.Name cfg
                    = Some (DatabaseHealthChecker.asHealthChecker E
                              {| DatabaseHealthChecker.name := config.Name cfg;
                                 DatabaseHealthChecker.db := Database.master db |})).
  { intros cfg Hin.
    destruct (proj1 (initAll_success _ _ _ _ _ H1) cfg Hin) as (db & Hg & _).
    exists db. split; [done|]. now apply Hl. }
  eexists _, _, hm'. split; [reflexivity|]. split; [done|].
  split; [exact Hreg|]. split; [exact Hdom|].
  intros k ctx now tasks st Hs Hrun cfg Hin.
  destruct (Hreg cfg Hin) as (db & _ & Hc).
  rewrite run_aggregate in Hrun.
  apply (aggregate_returned _ _ _ _ _ _ Hs) in Hrun as (-> & _).
  rewrite lookup_fmap, Hc. eauto.
Qed.

(** *** Closing *)

Lemma closeHandle_ok x rt :
  ∃ rt', Database.closeHandle E x rt = (rt', Ok ())
         ∧ stdout rt' = stdout rt.
Proof.
  unfold Database.closeHandle. rewrite DB_cases.
  destruct (gorm_DB E (gorm.ConnPool x)); simpl; eauto.
Qed.

Lemma closeSlaves_ok l rt :
  ∃ rt', Database.closeSlaves E l rt = (rt', Ok ())
         ∧ stdout rt' = stdout rt.
Proof.
  revert rt. induction l as [|x l IH]; intros rt; simpl; [by eexists|].
  unfold bind. destruct (closeHandle_ok x rt) as (rt1 & -> & H1).
  destruct (IH rt1) as (rt2 & -> & H2). exists rt2. split; congruence.
Qed.

Lemma Database_Close_nil d rt :
  ∃ rt', Database.Close E d rt = (rt', Ok None) ∧ stdout rt' = stdout rt.
Proof.
  unfold Database.Close, bind.
  destruct (closeHandle_ok (Database.master d) rt) as (rt1 & -> & H1).
  destruct (closeSlaves_ok (Database.slaves d) rt1) as (rt2 & -> & H2).
  exists rt2. split; [done|congruence].
Qed.

Lemma closeEach_ok dbs rt :
  ∃ rt', Manager.closeEach E dbs rt = (rt', Ok ()) ∧ stdout rt' = stdout rt.
Proof.
  revert rt. induction dbs as [|d dbs IH]; intros rt; simpl; [by eexists|].
  unfold bind at 1. destruct (Database_Close_nil d rt) as (rt1 & -> & H1).
  unfold bind at 1. unfold ret at 1.
  destruct (IH rt1) as (rt2 & -> & H2). exists rt2. split; congruence.
Qed.

(** C8. Database.Close and Manager.Close return nil in every state and
    every world: an error of DB() or of a pool's Close is dropped, so the
    caller never observes a close failure; Manager.Close never reaches
    its warning. *)
Theorem Close_always_returns_nil :
  (∀ d rt, (Database.Close E d rt).2 = Ok None)
  ∧ (∀ m order rt,
       (Manager.Close E m order rt).2 = Ok None
       ∧ stdout (Manager.Close E m order rt).1 = stdout rt).
Proof.
  split.
  - intros d rt. by destruct (Database_Close_nil d rt) as (rt' & -> & _).
  - intros m order rt. unfold Manager.Close, bind.
    by destruct (closeEach_ok order.*2 rt) as (rt' & -> & H).
Qed.

End construction.

(** ** Claims on routing *)

Lemma Slave_round_robin_before_wrap_witness :
  database.Database.round_robin sample.requests sample.three_slaves 2.
Proof.
  apply Slave_round_robin_before_wrap.
  - discriminate.
  - reflexivity.
  - lia.
  - vm_compute. reflexivity.
Defined.

(** C1 as stated fails once the 32-bit counter wraps: with three slaves the
    calls number 2^32 - 1 and 2^32 both select index 0, so 1431655766 rounds
    are not served in cyclic order. *)
Lemma Slave_round_robin_fails_after_wrap :
  ¬ database.Database.round_robin sample.requests sample.three_slaves 1431655766.
Proof.
  assert (Hside : (0 < database.Database.slave_count sample.three_slaves
                   < uint32.modulus)%N) by (split; reflexivity).
  assert (H0 : (database.Database.slaveIndex sample.three_slaves
                < uint32.modulus)%N) by reflexivity.
  assert (Ha : database.Database.selected sample.requests sample.three_slaves
                 4294967295 = Returned 0%N).
  { rewrite selected_closed; [reflexivity|exact Hside|exact H0|discriminate]. }
  assert (Hb : database.Database.selected sample.requests sample.three_slaves
                 (4294967295 + 1) = Returned 0%N).
  { rewrite selected_closed; [reflexivity|exact Hside|exact H0|discriminate]. }
  intros (_ & _ & Hcyc).
  specialize (Hcyc 4294967295%N 0%N).
  rewrite Hb in Hcyc.
  assert (Hr : (1 ≤ 4294967295 < 1431655766 * database.Database.slave_count sample.three_slaves)%N).
  { split; [discriminate|reflexivity]. }
  specialize (Hcyc Hr Ha). discriminate Hcyc.
Qed.

(** C2. With an empty active slave list, Slave(ctx) and Master(ctx) return
    handles over the identical pool (the master pool), for every context;
    the read path neither fails nor touches the counter. *)
Theorem Slave_falls_back_to_master d ctx :
  database.Database.slaves d = [] →
  database.Database.Slave d ctx
  = (d, Returned (database.Database.Master d ctx))
  ∧ gorm.ConnPool (database.Database.Master d ctx)
    = gorm.ConnPool (database.Database.master d).
Proof.
  intros Hs. unfold database.Database.Slave. rewrite Hs. split; reflexivity.
Qed.

Lemma Slave_falls_back_to_master_witness :
  database.Database.Slave sample.no_slaves (context.Request 7)
  = (sample.no_slaves,
     Returned (database.Database.Master sample.no_slaves (context.Request 7)))
  ∧ gorm.ConnPool (database.Database.Master sample.no_slaves (context.Request 7))
    = gorm.ConnPool (database.Database.master sample.no_slaves).
Proof.
  apply Slave_falls_back_to_master. reflexivity.
Defined.

(** ** Claims on construction, on concrete worlds *)

Lemma New_master_failures_fatal_slave_failures_not_witness :
  database.New (sample.env ["main-master"] []) (sample.dbConfig "main" ["s1"; "s2"])
    sample.startup
  = (sample.startup,
     database.Err
       "failed to connect to master database: dial tcp: connection refused")
  ∧ database.pointer
      (database.New (sample.env [] [0%N]) (sample.dbConfig "main" ["s1"; "s2"])
         sample.startup).2 = None
  ∧ (∃ rt' db,
      database.New (sample.env ["s1"] []) (sample.dbConfig "main" ["s1"; "s2"])
        sample.startup = (rt', database.Ok db)
      ∧ length (database.Database.slaves db) = 1
      ∧ length (database.warnings rt') = 1)
  ∧ ∃ rt' db,
      database.New (sample.sluggish ["s1"] [])
        (sample.dbConfig "main" ["s1"; "s2"]) sample.startup
      = (rt', database.Ok db)
      ∧ length (database.Database.slaves db) = 1
      ∧ length (database.warnings rt') = 2.
Proof.
  split; [|split; [|split]].
  - apply (New_master_failures_fatal_slave_failures_not
             (sample.env ["main-master"] [])
             (sample.dbConfig "main" ["s1"; "s2"]) sample.startup).
    vm_compute. reflexivity.
  - destruct (New_master_failures_fatal_slave_failures_not
                (sample.env [] [0%N])
                (sample.dbConfig "main" ["s1"; "s2"]) sample.startup)
      as (_ & Hverify & _).
    destruct (database.New (sample.env [] [0%N])
                (sample.dbConfig "main" ["s1"; "s2"]) sample.startup)
      as [rt' r] eqn:HN.
    apply (Hverify "server has gone away" rt' r);
      [vm_compute; reflexivity|vm_compute; reflexivity|reflexivity].
  - destruct (New_master_failures_fatal_slave_failures_not
                (sample.env ["s1"] [])
                (sample.dbConfig "main" ["s1"; "s2"]) sample.startup)
      as (_ & _ & _ & Hbuild).
    destruct Hbuild as (rt' & db & HN & _ & Hs & Hw);
      [vm_compute; reflexivity|reflexivity|vm_compute; reflexivity|].
    exists rt', db. split; [exact HN|]. split.
    + rewrite Hs. vm_compute. reflexivity.
    + rewrite Hw. vm_compute. reflexivity.
  - destruct (New_master_failures_fatal_slave_failures_not
                (sample.sluggish ["s1"] [])
                (sample.dbConfig "main" ["s1"; "s2"]) sample.startup)
      as (_ & _ & _ & Hbuild).
    destruct Hbuild as (rt' & db & HN & _ & Hs & Hw);
      [vm_compute; reflexivity|reflexivity|vm_compute; reflexivity|].
    exists rt', db. split; [exact HN|]. split.
    + rewrite Hs. vm_compute. reflexivity.
    + rewrite Hw. vm_compute. reflexivity.
Defined.

Lemma sample_main_constructed :
  database.NewManager sample.world [sample.dbConfig "main" ["s1"]] sample.startup
  = (sample.after_main, database.Ok sample.main_only).
Proof. vm_compute. reflexivity. Qed.

Lemma sample_orders_fails :
  database.New sample.world (sample.dbConfig "orders" []) sample.after_main
  = (sample.after_main,
     database.Err
       "failed to connect to master database: dial tcp: connection refused").
Proof. vm_compute. reflexivity. Qed.

Lemma NewManager_first_failure_aborts_witness :
  database.NewManager sample.world sample.configs sample.startup
  = (sample.after_main,
     database.Err
       "failed to initialize database orders: failed to connect to master database: dial tcp: connection refused")
  ∧ database.pointer
      (database.NewManager sample.world sample.configs sample.startup).2 = None.
Proof.
  destruct (NewManager_first_failure_aborts sample.world
              [sample.dbConfig "main" ["s1"]] (sample.dbConfig "orders" [])
              [sample.dbConfig "audit" []]
              sample.startup sample.after_main sample.after_main
              sample.main_only _ sample_main_constructed sample_orders_fails)
    as (Herr & Hnil & _).
  split; [exact Herr|exact Hnil].
Defined.

Lemma failed_NewManager_keeps_registered_checkers_witness :
  ∃ rt' err hm',
    database.NewManager sample.world sample.configs sample.startup
    = (rt', database.Err err)
    ∧ database.healthMgr rt' = Some hm'
    ∧ is_Some (health.checkers hm' !! "main").
Proof.
  destruct (failed_NewManager_keeps_registered_checkers sample.world
              [sample.dbConfig "main" ["s1"]] (sample.dbConfig "orders" [])
              [sample.dbConfig "audit" []]
              sample.startup sample.after_main sample.after_main
              sample.main_only _ (health.NewManager sample.healthConfig)
              eq_refl sample_main_constructed sample_orders_fails)
    as (rt' & err & hm' & Hrun & Hh & Hreg & _).
  exists rt', err, hm'. split; [exact Hrun|]. split; [exact Hh|].
  destruct (Hreg (sample.dbConfig "main" ["s1"])) as (db & _ & Hc).
  - apply elem_of_cons. left. reflexivity.
  - exists (database.DatabaseHealthChecker.asHealthChecker sample.world
              {| database.DatabaseHealthChecker.name := "main";
                 database.DatabaseHealthChecker.db := database.Database.master db |}).
    exact Hc.
Defined.

(** Closing drops the errors of the pools: here every pool reports one. *)
Example Close_drops_pool_errors :
  (database.Database.Close sample.world sample.three_slaves sample.startup).2
  = database.Ok None.
Proof. vm_compute. reflexivity. Qed.

(** * Further properties of the code *)

(** ** The health manager and its handlers *)

Section health_more.

Import health.

Lemma status_determined (st1 st2 : HealthStatus.t) :
  HealthStatus.Checks st1 = HealthStatus.Checks st2 →
  HealthStatus.Timestamp st1 = HealthStatus.Timestamp st2 →
  HealthStatus.Status st1 = HealthStatus.Status st2 →
  st1 = st2.
Proof. destruct st1, st2. simpl. by intros -> -> ->. Qed.

(** X1. The result of a Ping or Check round does not depend on the order
    in which the goroutines of the fan-out take the mutex: two schedules
    of the same round return the same status, or both end in a panic. *)
Theorem round_result_is_schedule_independent k m ctx now tasks1 tasks2 :
  schedule m tasks1 →
  schedule m tasks2 →
  run k m ctx now tasks1 = run k m ctx now tasks2.
Proof.
  intros H1 H2. rewrite !run_aggregate.
  assert (Hstep : ∀ t1 t2 st, schedule m t1 → schedule m t2 →
            aggregate (probeOf k) m ctx now t1 = Returned st →
            aggregate (probeOf k) m ctx now t2 = Returned st).
  { intros t1 t2 st Hs1 Hs2 Hr.
    pose proof (aggregate_returned _ _ _ _ _ _ Hs1 Hr)
      as (Hc & Ht & Hok & Hnp & Hv).
    destruct (aggregate_total (probeOf k) m ctx now t2 Hs2 Hnp) as [st' Hr'].
    rewrite Hr'. f_equal.
    pose proof (aggregate_returned _ _ _ _ _ _ Hs2 Hr')
      as (Hc' & Ht' & Hok' & _ & Hv').
    apply status_determined; [congruence|congruence|].
    destruct Hv as [Hv|Hv], Hv' as [Hv'|Hv']; [congruence| | |congruence].
    - pose proof (proj2 Hok' (proj1 Hok Hv)). congruence.
    - pose proof (proj2 Hok (proj1 Hok' Hv')). congruence. }
  destruct (aggregate (probeOf k) m ctx now tasks1) as [st|] eqn:E1.
  - symmetry. by apply (Hstep tasks1 tasks2).
  - destruct (aggregate (probeOf k) m ctx now tasks2) as [st|] eqn:E2; [|done].
    apply (Hstep tasks2 tasks1) in E2; [congruence|done..].
Qed.

Lemma round_result_is_schedule_independent_witness :
  run readiness sample.three_checkers context.Background sample.noon
    (map_to_list (checkers sample.three_checkers))
  = run readiness sample.three_checkers context.Background sample.noon
      (reverse (map_to_list (checkers sample.three_checkers))).
Proof.
  apply round_result_is_schedule_independent.
  - unfold schedule. reflexivity.
  - unfold schedule. apply reverse_Permutation.
Defined.

Lemma handlerOf_run k m ctx now tasks :
  handlerOf k m ctx now tasks
  = match run k m ctx now tasks with
    | Panicked => Panicked
    | Returned status =>
        if negb (config.Detailed (config m)) then
          Returned {| Code := getStatusCode (HealthStatus.Status status);
                      Payload := Brief (HealthStatus.Status status)
                                   (HealthStatus.Timestamp status) |}
        else
          Returned {| Code := getStatusCode (HealthStatus.Status status);
                      Payload := Detail status |}
    end.
Proof. destruct k; reflexivity. Qed.

Lemma getStatusCode_200 status : getStatusCode status = 200%Z ↔ status = "ok".
Proof. unfold getStatusCode. destruct (decide (status = "ok")); split; done. Qed.

(** X2. LivenessHandler and ReadinessHandler answer whenever no probe
    panics. The HTTP status is 200 exactly when every registered checker's
    probe returned nil, and 503 otherwise. With Detailed off the body
    carries only the overall status and the timestamp; with Detailed on it
    is the status of the round, with one entry per registered checker. *)
Theorem handlers_answer_200_iff_every_probe_passes k m ctx now tasks :
  schedule m tasks →
  ((∀ n c, checkers m !! n = Some c →
           probeOf k c (deadline m ctx) ≠ Panicked) →
   ∃ r, handlerOf k m ctx now tasks = Returned r)
  ∧ ∀ r, handlerOf k m ctx now tasks = Returned r →
      (Code r = 200%Z
       ↔ ∀ n c, checkers m !! n = Some c →
                probeOf k c (deadline m ctx) = Returned None)
      ∧ (Code r ≠ 200%Z → Code r = 503%Z)
      ∧ (config.Detailed (config m) = false →
         Payload r = Brief (if decide (Code r = 200%Z) then "ok" else "error")
                       now)
      ∧ (config.Detailed (config m) = true →
         ∃ st, Payload r = Detail st
               ∧ run k m ctx now tasks = Returned st
               ∧ dom (HealthStatus.Checks st) = dom (checkers m)).
Proof.
  intros Hs. rewrite handlerOf_run, run_aggregate. split.
  - intros Hnp.
    destruct (aggregate_total (probeOf k) m ctx now tasks Hs Hnp) as [st ->].
    destruct (negb _); eauto.
  - intros r.
    destruct (aggregate (probeOf k) m ctx now tasks) as [st|] eqn:Hrun;
      [|destruct r; discriminate].
    pose proof (aggregate_returned _ _ _ _ _ _ Hs Hrun)
      as (Hc & Ht & Hok & _ & Hv).
    intros Hr.
    assert (Hcode : Code r = getStatusCode (HealthStatus.Status st)).
    { destruct (negb _); by injection Hr as <-. }
    split; [by rewrite Hcode, getStatusCode_200|].
    split.
    { rewrite Hcode. unfold getStatusCode. by destruct (decide _). }
    split.
    + intros Hd. rewrite Hd in Hr. simpl in Hr. injection Hr as <-. simpl.
      rewrite Ht. f_equal. unfold getStatusCode.
      destruct (decide (HealthStatus.Status st = "ok")) as [->|Hne]; [done|].
      simpl. by destruct Hv.
    + intros Hd. rewrite Hd in Hr. simpl in Hr. injection Hr as <-.
      exists st. split; [done|]. split; [done|].
      rewrite Hc. apply dom_fmap_L.
Qed.

Lemma handlers_answer_200_iff_every_probe_passes_witness :
  ∃ r, handlerOf readiness sample.three_checkers context.Background sample.noon
         (map_to_list (checkers sample.three_checkers)) = Returned r
       ∧ Code r = 503%Z.
Proof.
  destruct (handlers_answer_200_iff_every_probe_passes readiness
              sample.three_checkers context.Background sample.noon
              (map_to_list (checkers sample.three_checkers)) (reflexivity _))
    as [_ Hspec].
  eexists. split; [vm_compute; reflexivity|].
  apply (Hspec _ eq_refl). vm_compute. discriminate.
Defined.

(** X3. With no registered checker, as right after NewManager, every round
    returns the status "ok" with the given timestamp and an empty checks
    map without running anything, and both handlers answer 200. *)
Theorem no_checker_means_healthy k m ctx now tasks :
  checkers m = ∅ →
  run k m ctx now tasks
  = Returned {| HealthStatus.Status := "ok"; HealthStatus.Timestamp := now;
                HealthStatus.Checks := ∅ |}
  ∧ ∃ r, handlerOf k m ctx now tasks = Returned r ∧ Code r = 200%Z.
Proof.
  intros Hm.
  assert (Hrun : run k m ctx now tasks
    = Returned {| HealthStatus.Status := "ok"; HealthStatus.Timestamp := now;
                  HealthStatus.Checks := ∅ |}).
  { rewrite run_aggregate. unfold aggregate. rewrite Hm, map_size_empty.
    reflexivity. }
  split; [exact Hrun|]. rewrite handlerOf_run, Hrun.
  destruct (negb _); eexists; split; reflexivity.
Qed.

Lemma no_checker_means_healthy_witness :
  run liveness (NewManager sample.healthConfig) (context.Request 1) sample.noon
    [("ghost", sample.steady "ghost" Panicked)]
  = Returned {| HealthStatus.Status := "ok"; HealthStatus.Timestamp := sample.noon;
                HealthStatus.Checks := ∅ |}.
Proof.
  apply (no_checker_means_healthy liveness (NewManager sample.healthConfig)).
  reflexivity.
Defined.

(** X4. Registration order does not matter for checkers with different
    names, and registering the same checker twice is the same as once. *)
Theorem Register_commutes_and_is_idempotent m A B :
  HealthChecker.Name A ≠ HealthChecker.Name B →
  (Register (Register m A).1 B).1 = (Register (Register m B).1 A).1
  ∧ (Register (Register m A).1 A).1 = (Register m A).1
  ∧ checkers (Register (Register m A).1 B).1 !! HealthChecker.Name A = Some A
  ∧ checkers (Register (Register m A).1 B).1 !! HealthChecker.Name B = Some B.
Proof.
  intros Hne. unfold Register. simpl. split; [|split; [|split]].
  - f_equal. by apply insert_insert_ne.
  - f_equal. apply insert_insert_eq.
  - rewrite lookup_insert_ne by done. apply lookup_insert_eq.
  - apply lookup_insert_eq.
Qed.

Lemma Register_commutes_and_is_idempotent_witness :
  (Register (Register (NewManager sample.healthConfig)
               (sample.steady "main" (Returned None))).1
     (sample.steady "cache" (Returned None))).1
  = (Register (Register (NewManager sample.healthConfig)
                 (sample.steady "cache" (Returned None))).1
       (sample.steady "main" (Returned None))).1.
Proof.
  apply (Register_commutes_and_is_idempotent (NewManager sample.healthConfig)
           (sample.steady "main" (Returned None))
           (sample.steady "cache" (Returned None))).
  discriminate.
Defined.

End health_more.

(** ** Routing, from any state of the counter *)

Section routing_more.

Import database.

Variable ctxs : N → context.Context.

(** X5. With at least one active slave (and fewer than 2^32), Slave never
    panics and never falls back to the master: it returns a handle of the
    slave list bound to the caller's context, and advances the counter by
    one modulo 2^32. *)
Theorem Slave_serves_a_slave d ctx :
  (0 < Database.slave_count d < uint32.modulus)%N →
  ∃ s, s ∈ Database.slaves d
       ∧ Database.Slave d ctx
         = (Database.set_slaveIndex d (uint32.Add (Database.slaveIndex d) 1),
            Returned (gorm.WithContext s ctx)).
Proof.
  intros [Hpos Hlt].
  assert (Hne : Database.slaves d ≠ []).
  { unfold Database.slave_count in Hpos.
    destruct (Database.slaves d); [simpl in Hpos; lia|done]. }
  rewrite (Slave_nonempty d ctx Hne). unfold Database.nextIndex. simpl.
  fold (Database.slave_count d).
  assert (Hn : uint32.of_N (Database.slave_count d) = Database.slave_count d).
  { unfold uint32.of_N. apply N.mod_small. lia. }
  rewrite Hn. destruct (N.eqb_spec (Database.slave_count d) 0) as [E0|_]; [lia|].
  destruct (slave_lookup d (uint32.Add (Database.slaveIndex d) 1
                            mod Database.slave_count d)) as [s Hs].
  { apply N.mod_lt. lia. }
  exists s. rewrite Hs. split; [|reflexivity].
  apply list_elem_of_lookup. eauto.
Qed.

Lemma Slave_serves_a_slave_witness :
  ∃ s, s ∈ Database.slaves sample.three_slaves
       ∧ Database.Slave sample.three_slaves (context.Request 9)
         = (Database.set_slaveIndex sample.three_slaves 1,
            Returned (gorm.WithContext s (context.Request 9))).
Proof.
  apply (Slave_serves_a_slave sample.three_slaves (context.Request 9)).
  split; reflexivity.
Defined.

(** X6. From any value c of the counter, the i-th sequential call of
    Slave returns the slave at index ((c + i) mod 2^32) mod N bound to
    the context of that call, and leaves the counter at (c + i) mod 2^32,
    whatever contexts are passed. *)
Theorem Slave_calls_follow_the_counter d i :
  (0 < Database.slave_count d < uint32.modulus)%N →
  (Database.slaveIndex d < uint32.modulus)%N →
  (1 ≤ i)%N →
  ∃ s,
    Database.slaves d
      !! N.to_nat (uint32.of_N (Database.slaveIndex d + i)
                   mod Database.slave_count d)%N = Some s
    ∧ Database.call ctxs d i = Returned (gorm.WithContext s (ctxs i))
    ∧ Database.slaveIndex (Database.after ctxs d i)
      = uint32.of_N (Database.slaveIndex d + i).
Proof.
  intros Hn Hc Hi.
  assert (Hne : Database.slaves d ≠ []).
  { destruct Hn as [Hpos _]. unfold Database.slave_count in Hpos.
    destruct (Database.slaves d); [simpl in Hpos; lia|done]. }
  pose proof (selected_closed ctxs d i Hn Hc Hi) as Hsel.
  destruct (slave_lookup d (uint32.of_N (Database.slaveIndex d + i)
                            mod Database.slave_count d)) as [s Hs].
  { apply N.mod_lt. lia. }
  exists s. split; [exact Hs|]. split.
  - rewrite (call_selected ctxs d i _ Hne Hsel), Hs. reflexivity.
  - rewrite (after_slaveIndex ctxs d i Hne).
    destruct (N.eqb_spec i 0); [lia|reflexivity].
Qed.

End routing_more.

Lemma Slave_calls_follow_the_counter_witness :
  database.Database.call sample.requests
    (database.Database.set_slaveIndex sample.three_slaves 4294967295) 1
  = Returned (gorm.WithContext (sample.pool 1) (context.Request 1)).
Proof.
  destruct (Slave_calls_follow_the_counter sample.requests
              (database.Database.set_slaveIndex sample.three_slaves 4294967295)
              1) as (s & Hs & Hcall & _).
  - split; reflexivity.
  - reflexivity.
  - discriminate.
  - rewrite Hcall. vm_compute in Hs. injection Hs as <-. reflexivity.
Defined.

(** ** Construction, pools and the database checker *)

Section construction_more.

Import database.

Variable E : Env.

Lemma DatabaseHealthChecker_Check_refines_Ping_aux c ctx :
  DatabaseHealthChecker.Check E c ctx = None
  ↔ gorm_DB E (gorm.ConnPool (DatabaseHealthChecker.db c)) = None
    ∧ sql_PingContext E (gorm.ConnPool (DatabaseHealthChecker.db c)) ctx = None
    ∧ gorm_Exec E (gorm.ConnPool (DatabaseHealthChecker.db c)) ctx "SELECT 1"
      = None.
Proof.
  unfold DatabaseHealthChecker.Check.
  destruct (gorm_DB E _), (sql_PingContext E _ _), (gorm_Exec E _ _ _);
    split; try done; intros (? & ? & ?); done.
Qed.

(** X7. The readiness probe of a database is at least as strict as its
    liveness probe: Check returns nil only if Ping does, an error of Ping
    is the error of Check, and Check returns nil exactly when DB(), the
    ping and SELECT 1 all succeed. *)
Theorem DatabaseHealthChecker_Check_refines_Ping c ctx :
  (DatabaseHealthChecker.Check E c ctx = None →
   DatabaseHealthChecker.Ping E c ctx = None)
  ∧ (∀ err, DatabaseHealthChecker.Ping E c ctx = Some err →
            DatabaseHealthChecker.Check E c ctx = Some err)
  ∧ (DatabaseHealthChecker.Check E c ctx = None
     ↔ gorm_DB E (gorm.ConnPool (DatabaseHealthChecker.db c)) = None
       ∧ sql_PingContext E (gorm.ConnPool (DatabaseHealthChecker.db c)) ctx
         = None
       ∧ gorm_Exec E (gorm.ConnPool (DatabaseHealthChecker.db c)) ctx
           "SELECT 1" = None).
Proof.
  unfold DatabaseHealthChecker.Check, DatabaseHealthChecker.Ping.
  destruct (gorm_DB E _), (sql_PingContext E _ _), (gorm_Exec E _ _ _);
    repeat split; try done; intros (? & ? & ?); done.
Qed.

Lemma configurePool_lookup cfg id rt id' :
  pools (configurePool cfg id rt).1 !! id'
  = if decide (id = id') then bounded cfg <$> pools rt !! id'
    else pools rt !! id'.
Proof.
  simpl. destruct (decide (id = id')) as [->|Hne].
  - by rewrite lookup_alter_eq.
  - by rewrite lookup_alter_ne.
Qed.




Lemma opened_bounded cfg rt :
  pools (configurePool cfg (nextPool rt) (opened rt)).1 !! nextPool rt
  = Some (bounded cfg fresh).
Proof.
  rewrite configurePool_lookup. rewrite decide_True by done.
  simpl. by rewrite lookup_insert_eq.
Qed.

Lemma opened_frame cfg rt id :
  (id < nextPool rt)%N →
  pools (configurePool cfg (nextPool rt) (opened rt)).1 !! id = pools rt !! id.
Proof.
  intros Hlt. rewrite configurePool_lookup.
  rewrite decide_False by lia. simpl. rewrite lookup_insert_ne by lia. done.
Qed.

(** What a completed loop over the slaves did to the pools. *)
Lemma connectSlaves_pools cfg todo i acc rt rt' slaves :
  connectSlaves E cfg i todo acc rt = (rt', Ok slaves) →
  ∃ k,
    slaves = (acc ++ ((λ j, handle (nextPool rt + N.of_nat j)%N) <$> seq 0 k))%list
    ∧ nextPool rt' = (nextPool rt + N.of_nat k)%N
    ∧ (k ≤ length todo)%nat
    ∧ (∀ id, (id < nextPool rt)%N → pools rt' !! id = pools rt !! id)
    ∧ (∀ j, (j < k)%nat →
         pools rt' !! (nextPool rt + N.of_nat j)%N
         = Some (bounded cfg fresh)).
Proof.
  revert i acc rt. induction todo as [|s rest IH]; intros i acc rt.
  - intros [= <- <-]. exists 0. simpl. rewrite app_nil_r, N.add_0_r.
    split; [done|]. split; [done|]. split; [lia|]. split; [done|].
    intros j Hj. lia.
  - simpl connectSlaves. rewrite connect_cases.
    destruct (connectError E cfg s) as [err|].
    + unfold bind, Warn. intros (k & -> & Hn & Hk & Hf & Hc)%IH.
      exists k. simpl in *. split; [done|]. split; [done|]. split; [lia|].
      split; done.
    + rewrite DB_cases. simpl gorm.ConnPool.
      destruct (gorm_DB E (nextPool rt)); [discriminate|].
      unfold bind at 1.
      change (configurePool cfg (nextPool rt) (opened rt))
        with ((configurePool cfg (nextPool rt) (opened rt)).1, @Ok unit ()).
      intros (k & -> & Hn & Hk & Hf & Hc)%IH.
      change (nextPool (configurePool cfg (nextPool rt) (opened rt)).1)
        with (N.succ (nextPool rt)) in *.
      exists (S k). split; [|split; [lia|split; [simpl; lia|split]]].
      * rewrite <- app_assoc. f_equal. simpl. rewrite N.add_0_r. f_equal.
        rewrite <- fmap_S_seq, <- list_fmap_compose.
        apply list_fmap_ext. intros _ j _. simpl. f_equal. lia.
      * intros id Hid. rewrite Hf by lia. by apply opened_frame.
      * intros [|j] Hj.
        -- rewrite N.add_0_r, Hf by lia. apply opened_bounded.
        -- rewrite <- (Hc j ltac:(lia)). f_equal. lia.
Qed.

(** The shape of a completed construction. *)
Lemma New_ok_inv cfg rt rt' db :
  New E cfg rt = (rt', Ok db) →
  ∃ rt3,
    connectError E cfg (config.Master cfg) = None
    ∧ gorm_DB E (nextPool rt) = None
    ∧ gorm_Exec E (nextPool rt) context.Background "SELECT 1" = None
    ∧ connectSlaves E cfg 0 (config.Slaves cfg) []
        (configurePool cfg (nextPool rt) (opened rt)).1
      = (rt3, Ok (Database.slaves db))
    ∧ pools rt' = pools rt3 ∧ nextPool rt' = nextPool rt3
    ∧ length (warnings rt')
      = length (warnings rt3) + verificationWarnings E cfg (nextPool rt)
    ∧ db = {| Database.name := config.Name cfg; Database.config := cfg;
              Database.master := handle (nextPool rt);
              Database.slaves := Database.slaves db;
              Database.slaveIndex := 0 |}.
Proof.
  destruct (connectError E cfg (config.Master cfg)) as [err|] eqn:Hc.
  { rewrite (New_master_unreachable _ _ _ _ Hc). discriminate. }
  destruct (gorm_DB E (nextPool rt)) as [e|] eqn:Hdb.
  { unfold New, bind, wrap. rewrite connect_cases, Hc, DB_cases. simpl.
    rewrite Hdb. discriminate. }
  rewrite (New_after_master _ _ _ Hc Hdb). unfold bind at 1.
  destruct (connectSlaves _ _ _ _ _ _) as [rt3 [slaves|e|]] eqn:Hs;
    [|discriminate..].
  unfold bind at 1. unfold wrap. rewrite Exec_cases. simpl gorm.ConnPool.
  destruct (gorm_Exec E (nextPool rt) context.Background "SELECT 1");
    [discriminate|].
  unfold bind, registerChecker, ret.
  change (healthMgr (warned ?m rt3)) with (healthMgr rt3).
  destruct (healthMgr rt3); intros [= <- <-]; exists rt3; simpl;
    rewrite length_app, traced_verification; done.
Qed.

(** X8. Every handle of a constructed database is on a pool of its own,
    created by this construction: the master takes the next pool
    identity and the active slaves the following ones, so no slave handle
    shares the master's pool; pools that existed before are not touched,
    and there are at most as many active slaves as configured. *)
Theorem New_opens_fresh_distinct_pools cfg rt rt' db :
  New E cfg rt = (rt', Ok db) →
  gorm.ConnPool <$> handles db
  = (λ j, (nextPool rt + N.of_nat j)%N)
      <$> seq 0 (S (length (Database.slaves db)))
  ∧ NoDup (gorm.ConnPool <$> handles db)
  ∧ nextPool rt' = (nextPool rt + N.of_nat (S (length (Database.slaves db))))%N
  ∧ (length (Database.slaves db) ≤ length (config.Slaves cfg))%nat
  ∧ ∀ id, (id < nextPool rt)%N → pools rt' !! id = pools rt !! id.
Proof.
  intros (rt3 & _ & _ & _ & Hs & Hp & Hn & _ & Hdb)%New_ok_inv.
  apply connectSlaves_pools in Hs as (k & Hsl & Hn3 & Hk & Hf & _).
  simpl in Hsl, Hn3, Hf.
  assert (Hlen : length (Database.slaves db) = k).
  { rewrite Hsl, length_fmap, length_seq. done. }
  assert (Hids : gorm.ConnPool <$> handles db
                 = (λ j, (nextPool rt + N.of_nat j)%N)
                     <$> seq 0 (S (length (Database.slaves db)))).
  { unfold handles. rewrite Hdb at 1. simpl. rewrite N.add_0_r. f_equal.
    rewrite Hlen, Hsl, <- fmap_S_seq, <- !list_fmap_compose.
    apply list_fmap_ext. intros _ j _. simpl. lia. }
  split; [exact Hids|]. split; [|split; [|split]].
  - rewrite Hids. apply NoDup_fmap_2; [|apply NoDup_seq].
    intros a b Hab. lia.
  - rewrite Hn, Hn3, Hlen. lia.
  - lia.
  - intros id Hid. rewrite Hp, Hf by lia. by apply opened_frame.
Qed.


(** When no configured slave can be reached the loop only logs. *)
Lemma connectSlaves_all_down cfg todo i acc rt :
  Forall (λ s, connectError E cfg s ≠ None) todo →
  ∃ rt', connectSlaves E cfg i todo acc rt = (rt', Ok acc)
         ∧ pools rt' = pools rt ∧ nextPool rt' = nextPool rt
         ∧ healthMgr rt' = healthMgr rt
         ∧ length (warnings rt') = length (warnings rt) + length todo.
Proof.
  intros Hall. revert i rt. induction Hall as [|s rest Hs _ IH]; intros i rt.
  - exists rt. simpl. repeat split; lia.
  - simpl connectSlaves. rewrite connect_cases.
    destruct (connectError E cfg s) as [err|]; [|done].
    unfold bind, Warn. edestruct IH as (rt' & -> & Hp & Hn & Hh & Hw).
    exists rt'. simpl in *. rewrite length_app in Hw. simpl in Hw.
    repeat split; [done..|lia].
Qed.

(** X10. If the master is reachable and verified but no configured slave
    can be reached, construction still succeeds with an empty active
    slave list; log.Warn receives one message per configured slave and,
    when the trace of the verification statement reports it as slow, the
    slow-query message besides.  Every Slave call on the instance then
    serves the master pool and leaves the instance unchanged. *)
Theorem New_without_reachable_slave_serves_reads_from_master cfg rt :
  connectError E cfg (config.Master cfg) = None →
  gorm_DB E (nextPool rt) = None →
  gorm_Exec E (nextPool rt) context.Background "SELECT 1" = None →
  Forall (λ s, connectError E cfg s ≠ None) (config.Slaves cfg) →
  ∃ rt' db,
    New E cfg rt = (rt', Ok db)
    ∧ Database.slaves db = []
    ∧ length (warnings rt')
      = length (warnings rt) + length (config.Slaves cfg)
        + verificationWarnings E cfg (nextPool rt)
    ∧ ∀ ctx,
        Database.Slave db ctx
        = (db, Returned (gorm.WithContext (handle (nextPool rt)) ctx)).
Proof.
  intros Hc Hdb Hx Hdown. rewrite (New_after_master _ _ _ Hc Hdb).
  unfold bind at 1.
  destruct (connectSlaves_all_down cfg (config.Slaves cfg) 0 []
              (configurePool cfg (nextPool rt) (opened rt)).1 Hdown)
    as (rt3 & -> & _ & _ & _ & Hw).
  unfold bind at 1. unfold wrap. rewrite Exec_cases. simpl gorm.ConnPool.
  rewrite Hx. unfold bind, registerChecker, ret.
  change (healthMgr (warned ?m rt3)) with (healthMgr rt3).
  destruct (healthMgr rt3); eexists _, _; (split; [reflexivity|]);
    simpl in *; (split; [done|]);
    (split; [rewrite length_app, traced_verification; lia|]); done.
Qed.

Lemma registered_config m l :
  health.config (health.registered m l) = health.config m.
Proof.
  revert m. induction l as [|c l IH]; intros m; [done|].
  simpl. by rewrite IH.
Qed.

Lemma registered_lookup_ne m l name :
  Forall (λ c, health.HealthChecker.Name c ≠ name) l →
  health.checkers (health.registered m l) !! name
  = health.checkers m !! name.
Proof.
  intros Hl. revert m. induction Hl as [|c l Hc _ IH]; intros m; [done|].
  simpl. rewrite IH. simpl. by rewrite lookup_insert_ne.
Qed.

Lemma registered_dom m l :
  dom (health.checkers (health.registered m l))
  = dom (health.checkers m)
    ∪ list_to_set (health.HealthChecker.Name <$> l).
Proof.
  revert m. induction l as [|c l IH]; intros m.
  - simpl. by rewrite union_empty_r_L.
  - simpl. rewrite IH. simpl. rewrite dom_insert_L.
    apply set_eq. intros x. rewrite !elem_of_union. tauto.
Qed.

(** The entry a completed Check round holds for a name. *)
Lemma Check_entry m ctx now tasks st name c :
  health.schedule m tasks →
  health.Check m ctx now tasks = Returned st →
  health.checkers m !! name = Some c →
  health.HealthStatus.Checks st !! name
  = Some (health.verdict health.HealthChecker.Check (health.deadline m ctx) c).
Proof.
  intros Hs Hrun Hc.
  change (health.Check m ctx now tasks)
    with (health.aggregate health.HealthChecker.Check m ctx now tasks) in Hrun.
  apply (aggregate_returned _ _ _ _ _ _ Hs) in Hrun as (-> & _).
  rewrite lookup_fmap, Hc. reflexivity.
Qed.

(** X11. A completed construction with a health manager registers, under
    the instance name, a checker on the master pool.  In every completed
    Check round of that manager, as New leaves it or after any further
    registrations under other names, the entry of that name is "ok"
    exactly when DB(), the ping and SELECT 1 succeed on the master pool
    within the round's deadline; degraded or unreachable slaves play no
    part.  It holds until a checker is registered under the same name,
    which replaces the entry. *)
Theorem New_registers_a_master_backed_checker cfg rt rt' db hm :
  New E cfg rt = (rt', Ok db) →
  healthMgr rt = Some hm →
  ∃ hm',
    healthMgr rt' = Some hm'
    ∧ health.checkers hm'
      = <[config.Name cfg :=
            DatabaseHealthChecker.asHealthChecker E
              {| DatabaseHealthChecker.name := config.Name cfg;
                 DatabaseHealthChecker.db := handle (nextPool rt) |}]>
          (health.checkers hm)
    ∧ ∀ later ctx now tasks st,
        Forall (λ c, health.HealthChecker.Name c ≠ config.Name cfg) later →
        health.schedule (health.registered hm' later) tasks →
        health.Check (health.registered hm' later) ctx now tasks
        = Returned st →
        ∃ r, health.HealthStatus.Checks st !! config.Name cfg = Some r
             ∧ (health.CheckResult.Status r = "ok"
                ↔ gorm_DB E (nextPool rt) = None
                  ∧ sql_PingContext E (nextPool rt)
                      (health.deadline (health.registered hm' later) ctx)
                    = None
                  ∧ gorm_Exec E (nextPool rt)
                      (health.deadline (health.registered hm' later) ctx)
                      "SELECT 1" = None).
Proof.
  intros HN Hh.
  pose proof (New_ok_inv _ _ _ _ HN) as (_ & _ & _ & _ & _ & _ & _ & _ & Hdb).
  apply New_registers in HN as [_ [_ Hreg]].
  rewrite Hh in Hreg. simpl in Hreg. rewrite Hdb in Hreg. simpl in Hreg.
  eexists. split; [exact Hreg|]. split; [reflexivity|].
  intros later ctx now tasks st Hlater Hs Hrun.
  set (hm' := {| health.checkers := _; health.config := _ |}) in *.
  set (c := {| DatabaseHealthChecker.name := config.Name cfg;
               DatabaseHealthChecker.db := handle (nextPool rt) |}).
  assert (Hc : health.checkers (health.registered hm' later) !! config.Name cfg
               = Some (DatabaseHealthChecker.asHealthChecker E c)).
  { rewrite (registered_lookup_ne _ _ _ Hlater). unfold hm'. simpl.
    by rewrite lookup_insert_eq. }
  rewrite (Check_entry _ _ _ _ _ _ _ Hs Hrun Hc).
  eexists. split; [reflexivity|].
  unfold health.verdict. simpl.
  destruct (DatabaseHealthChecker_Check_refines_Ping_aux c
              (health.deadline (health.registered hm' later) ctx))
    as [H1 H2].
  simpl in H1, H2.
  destruct (DatabaseHealthChecker.Check E c _) as [e|]; simpl.
  - split; [discriminate|]. intros H. by apply H2 in H.
  - split; [|done]. intros _. by apply H1.
Qed.

(** *** The effect of closing *)

Lemma closing_nil rt : closing [] rt rt.
Proof.
  split; [|done]. intros id. rewrite decide_False; [done|].
  apply not_elem_of_nil.
Qed.

Lemma closing_app ids1 ids2 rt rt1 rt2 :
  closing ids1 rt rt1 → closing ids2 rt1 rt2 → closing (ids1 ++ ids2) rt rt2.
Proof.
  intros (Hp1 & Hn1 & Hw1 & Ho1 & Hh1) (Hp2 & Hn2 & Hw2 & Ho2 & Hh2).
  split; [|repeat split; congruence].
  intros id. rewrite Hp2, Hp1.
  destruct (decide (id ∈ ids1)) as [H1|H1], (decide (id ∈ ids2)) as [H2|H2].
  - rewrite decide_True by (apply elem_of_app; auto).
    by destruct (pools rt !! id).
  - rewrite decide_True by (apply elem_of_app; auto). done.
  - rewrite decide_True by (apply elem_of_app; auto). done.
  - rewrite decide_False; [done|]. by intros [?|?]%elem_of_app.
Qed.

Lemma closeHandle_closing x rt :
  ∃ rt', Database.closeHandle E x rt = (rt', Ok ())
         ∧ closing (filter (λ id, gorm_DB E id = None) [gorm.ConnPool x]) rt rt'.
Proof.
  unfold Database.closeHandle. rewrite DB_cases.
  rewrite filter_cons, filter_nil.
  destruct (decide (gorm_DB E (gorm.ConnPool x) = None)) as [Hok|Hno].
  - rewrite Hok. simpl. eexists. split; [reflexivity|].
    split; [|done]. intros id. simpl.
    destruct (decide (id ∈ [gorm.ConnPool x])) as [Hin|Hin].
    + apply list_elem_of_singleton in Hin as ->. apply lookup_alter_eq.
    + apply lookup_alter_ne. intros Heq. apply Hin.
      apply list_elem_of_singleton. by symmetry.
  - destruct (gorm_DB E (gorm.ConnPool x)); [|done].
    exists rt. split; [done|]. apply closing_nil.
Qed.

Lemma closeSlaves_closing l rt :
  ∃ rt', Database.closeSlaves E l rt = (rt', Ok ())
         ∧ closing (filter (λ id, gorm_DB E id = None) (gorm.ConnPool <$> l))
             rt rt'.
Proof.
  revert rt. induction l as [|x l IH]; intros rt.
  - exists rt. split; [done|]. apply closing_nil.
  - simpl Database.closeSlaves. unfold bind.
    destruct (closeHandle_closing x rt) as (rt1 & -> & H1).
    destruct (IH rt1) as (rt2 & -> & H2). exists rt2. split; [done|].
    rewrite fmap_cons.
    change (gorm.ConnPool x :: (gorm.ConnPool <$> l))
      with ([gorm.ConnPool x] ++ (gorm.ConnPool <$> l))%list.
    rewrite filter_app. by eapply closing_app.
Qed.

Lemma Database_Close_closing d rt :
  ∃ rt', Database.Close E d rt = (rt', Ok None)
         ∧ closing (closable E d) rt rt'.
Proof.
  unfold Database.Close, bind.
  destruct (closeHandle_closing (Database.master d) rt) as (rt1 & -> & H1).
  destruct (closeSlaves_closing (Database.slaves d) rt1) as (rt2 & -> & H2).
  exists rt2. split; [done|]. unfold closable, handles. rewrite fmap_cons.
  change (gorm.ConnPool (Database.master d)
          :: (gorm.ConnPool <$> Database.slaves d))
    with ([gorm.ConnPool (Database.master d)]
          ++ (gorm.ConnPool <$> Database.slaves d))%list.
  rewrite filter_app. by eapply closing_app.
Qed.

Lemma closeEach_closing dbs rt :
  ∃ rt', Manager.closeEach E dbs rt = (rt', Ok ())
         ∧ closing (mjoin (closable E <$> dbs)) rt rt'.
Proof.
  revert rt. induction dbs as [|d dbs IH]; intros rt.
  - exists rt. split; [done|]. apply closing_nil.
  - simpl Manager.closeEach. unfold bind at 1.
    destruct (Database_Close_closing d rt) as (rt1 & -> & H1).
    unfold bind at 1. unfold ret at 1.
    destruct (IH rt1) as (rt2 & -> & H2). exists rt2. split; [done|].
    simpl. by eapply closing_app.
Qed.

Lemma closing_closedIn ids rt rt' x :
  closing ids rt rt' → gorm.ConnPool x ∈ ids → closedIn rt' x.
Proof.
  intros [Hp _] Hin p. rewrite Hp, decide_True by done.
  destruct (pools rt !! gorm.ConnPool x); [|done]. by intros [= <-].
Qed.

(** X12. Database.Close closes the pool of every handle of the instance
    whose sql.DB can be obtained, whether or not another handle fails, and
    changes nothing else: the bounds of the closed pools, every other
    pool, the log, standard output and the health manager stay as they
    were. *)
Theorem Database_Close_closes_every_reachable_pool d rt :
  ∃ rt',
    Database.Close E d rt = (rt', Ok None)
    ∧ closing (closable E d) rt rt'
    ∧ ∀ x, x ∈ handles d → gorm_DB E (gorm.ConnPool x) = None →
           closedIn rt' x.
Proof.
  destruct (Database_Close_closing d rt) as (rt' & HC & Hcl).
  exists rt'. split; [done|]. split; [done|].
  intros x Hx Hok. apply (closing_closedIn _ _ _ _ Hcl).
  unfold closable. apply list_elem_of_filter. split; [done|].
  by apply list_elem_of_fmap_2.
Qed.

(** X13. Manager.Close closes, for every enumeration order of the
    registry, the reachable pools of every registered database and
    nothing else; in particular the health manager keeps every checker,
    which from then on probes closed pools. *)
Theorem Manager_Close_closes_all_and_keeps_checkers m order rt :
  Manager.iteration m order →
  ∃ rt',
    Manager.Close E m order rt = (rt', Ok None)
    ∧ closing (mjoin (closable E <$> order.*2)) rt rt'
    ∧ healthMgr rt' = healthMgr rt
    ∧ ∀ name d x,
        Manager.Get m name = Some d → x ∈ handles d →
        gorm_DB E (gorm.ConnPool x) = None → closedIn rt' x.
Proof.
  intros Hit. unfold Manager.Close, bind.
  destruct (closeEach_closing order.*2 rt) as (rt' & -> & Hcl).
  exists rt'. split; [done|]. split; [done|].
  split; [apply Hcl|].
  intros name d x Hd Hx Hok. apply (closing_closedIn _ _ _ _ Hcl).
  apply list_elem_of_join. exists (closable E d). split.
  - unfold closable. apply list_elem_of_filter. split; [done|].
    by apply list_elem_of_fmap_2.
  - apply list_elem_of_fmap_2. apply list_elem_of_fmap.
    exists (name, d). split; [done|].
    unfold Manager.iteration in Hit. rewrite Hit.
    by apply elem_of_map_to_list.
Qed.

End construction_more.

(** ** The registry and the validation of its configuration *)

Section registry_more.

Import database.

Variable E : Env.

Lemma initAll_dom cs mgr rt rt' mgr' :
  initAll E cs mgr rt = (rt', Ok mgr') →
  dom (Manager.databases mgr')
  = dom (Manager.databases mgr) ∪ list_to_set (config.Name <$> cs).
Proof.
  revert mgr rt. induction cs as [|a rest IH]; intros mgr rt.
  - intros [= <- <-]. simpl. by rewrite union_empty_r_L.
  - rewrite initAll_cons.
    destruct (New E a rt) as [rt1 [db|err|]]; [|done..].
    intros ->%IH. simpl. rewrite dom_insert_L.
    apply set_eq. intros x. rewrite !elem_of_union. tauto.
Qed.

Lemma initAll_keeps cs mgr rt rt' mgr' name :
  initAll E cs mgr rt = (rt', Ok mgr') →
  name ∉ config.Name <$> cs →
  Manager.databases mgr' !! name = Manager.databases mgr !! name.
Proof.
  revert mgr rt. induction cs as [|a rest IH]; intros mgr rt.
  - by intros [= <- <-].
  - rewrite initAll_cons, fmap_cons.
    destruct (New E a rt) as [rt1 [db|err|]]; [|done..].
    intros Hrest [Hne Hnot]%not_elem_of_cons.
    rewrite (IH _ _ Hrest Hnot). simpl. by rewrite lookup_insert_ne.
Qed.

Lemma initAll_last l1 cfg l2 mgr rt rt' mgr' :
  initAll E (l1 ++ cfg :: l2) mgr rt = (rt', Ok mgr') →
  config.Name cfg ∉ config.Name <$> l2 →
  ∃ db, Manager.databases mgr' !! config.Name cfg = Some db
        ∧ Database.config db = cfg
        ∧ Database.name db = config.Name cfg
        ∧ Database.slaveIndex db = 0%N.
Proof.
  rewrite initAll_app.
  destruct (initAll E l1 mgr rt) as [rt1 [mgr1|err|]]; [|done..].
  rewrite initAll_cons.
  destruct (New E cfg rt1) as [rt2 [db|err|]] eqn:HN; [|done..].
  intros Hrest Hnot. exists db.
  rewrite (initAll_keeps _ _ _ _ _ _ Hrest Hnot). simpl.
  rewrite lookup_insert_eq. split; [done|].
  apply New_ok_inv in HN as (_ & _ & _ & _ & _ & _ & _ & _ & ->). done.
Qed.

Lemma initAll_nil_health cs mgr rt rt' r :
  initAll E cs mgr rt = (rt', r) →
  healthMgr rt = None → healthMgr rt' = None.
Proof.
  revert mgr rt. induction cs as [|a rest IH]; intros mgr rt.
  - by intros [= <- <-].
  - rewrite initAll_cons.
    destruct (New E a rt) as [rt1 [db|err|]] eqn:HN;
      apply New_registers in HN as [_ HN].
    + intros Hrest Hnil. apply (IH _ _ Hrest). destruct HN as [_ ->].
      by rewrite Hnil.
    + intros [= <- <-]. congruence.
    + intros [= <- <-]. congruence.
Qed.

Lemma initAll_health_dom cs mgr rt rt' mgr' hm :
  initAll E cs mgr rt = (rt', Ok mgr') →
  healthMgr rt = Some hm →
  ∃ hm', healthMgr rt' = Some hm'
         ∧ dom (health.checkers hm')
           = dom (health.checkers hm) ∪ list_to_set (config.Name <$> cs)
         ∧ health.config hm' = health.config hm.
Proof.
  revert mgr rt hm. induction cs as [|a rest IH]; intros mgr rt hm.
  - intros [= <- <-] Hh. exists hm. simpl. by rewrite union_empty_r_L.
  - rewrite initAll_cons.
    destruct (New E a rt) as [rt1 [db|err|]] eqn:HN; [|done..].
    intros Hrest Hh. apply New_registers in HN as [_ [_ Hreg]].
    rewrite Hh in Hreg. simpl in Hreg.
    destruct (IH _ _ _ Hrest Hreg) as (hm' & Hh' & Hdom & Hcfg).
    exists hm'. split; [done|]. split; [|done].
    rewrite Hdom. simpl. rewrite dom_insert_L.
    apply set_eq. intros x. rewrite !elem_of_union. tauto.
Qed.

(** X14. On a registry returned by NewManager, Get returns nil exactly
    for the names that no configuration of the list carries. *)
Theorem NewManager_Get_is_nil_exactly_off_the_configured_names
    configs rt rt' mgr name :
  NewManager E configs rt = (rt', Ok mgr) →
  Manager.Get mgr name = None ↔ name ∉ config.Name <$> configs.
Proof.
  intros H%initAll_dom. simpl in H. rewrite dom_empty_L, union_empty_l_L in H.
  unfold Manager.Get. rewrite <- not_elem_of_dom, H.
  by rewrite elem_of_list_to_set.
Qed.

(** X15. When several configurations carry the same name, the registry
    returned by NewManager holds under that name the instance built from
    the last of them, freshly constructed (counter at zero); the
    instances built from the earlier ones are not retrievable. *)
Theorem NewManager_last_configuration_of_a_name_wins
    l1 cfg l2 rt rt' mgr :
  NewManager E (l1 ++ cfg :: l2) rt = (rt', Ok mgr) →
  config.Name cfg ∉ config.Name <$> l2 →
  ∃ db, Manager.Get mgr (config.Name cfg) = Some db
        ∧ Database.config db = cfg
        ∧ Database.name db = config.Name cfg
        ∧ Database.slaveIndex db = 0%N.
Proof. apply initAll_last. Qed.

(** X16. NewManager changes the health manager only by registering: with
    a nil health manager it stays nil whatever the outcome, and on
    success the registered names are the earlier ones together with
    exactly the names of the registry, the configuration of the health
    manager being kept. *)
Theorem NewManager_registers_exactly_the_registry_names configs rt rt' r :
  NewManager E configs rt = (rt', r) →
  (healthMgr rt = None → healthMgr rt' = None)
  ∧ (∀ hm mgr, healthMgr rt = Some hm → r = Ok mgr →
       ∃ hm', healthMgr rt' = Some hm'
              ∧ dom (health.checkers hm')
                = dom (health.checkers hm) ∪ dom (Manager.databases mgr)
              ∧ health.config hm' = health.config hm).
Proof.
  intros H. split; [by eapply initAll_nil_health|].
  intros hm mgr Hh ->. unfold NewManager in H.
  destruct (initAll_health_dom _ _ _ _ _ _ H Hh) as (hm' & Hh' & Hdom & Hc).
  exists hm'. split; [done|]. split; [|done].
  rewrite Hdom. apply initAll_dom in H. rewrite H. simpl.
  by rewrite dom_empty_L, union_empty_l_L.
Qed.

(** *** [validateDatabases] *)

Lemma supported_dec db :
  ¬ (config.Type_ db ≠ "mysql" ∧ config.Type_ db ≠ "postgres"
     ∧ config.Type_ db ≠ "sqlite") →
  config.supported db.
Proof.
  intros Ht. unfold config.supported.
  destruct (decide (config.Type_ db = "mysql")); [tauto|].
  destruct (decide (config.Type_ db = "postgres")); [tauto|].
  destruct (decide (config.Type_ db = "sqlite")); [tauto|].
  exfalso. apply Ht. done.
Qed.

Lemma unsupported_not_supported db :
  config.Type_ db ≠ "mysql" ∧ config.Type_ db ≠ "postgres"
  ∧ config.Type_ db ≠ "sqlite" →
  ¬ config.supported db.
Proof. intros (? & ? & ?) [?|[?|?]]; done. Qed.

(** One turn of the loop. *)
Lemma validateEach_step i names db rest :
  config.validateEach i names (db :: rest) = None
  ↔ config.acceptable db
    ∧ names !! config.Name db ≠ Some true
    ∧ config.validateEach (S i) (<[config.Name db := true]> names) rest = None.
Proof.
  simpl config.validateEach.
  destruct (decide (config.Name db = EmptyString)) as [He|He].
  { split; [done|]. intros [[Hn _] _]. done. }
  destruct (decide (config.Type_ db ≠ "mysql" ∧ config.Type_ db ≠ "postgres"
                    ∧ config.Type_ db ≠ "sqlite")) as [Ht|Ht].
  - assert (Hno : ¬ config.acceptable db).
    { intros [_ Hs]. by apply (unsupported_not_supported db). }
    destruct (default false (names !! config.Name db));
      (split; [done|]; intros [Ha _]; done).
  - pose proof (supported_dec db Ht) as Hs.
    destruct (names !! config.Name db) as [[|]|]; simpl.
    + split; [done|]. intros (_ & H & _). done.
    + split; [|tauto]. intros H. split; [done|]. split; done.
    + split; [|tauto]. intros H. split; [done|]. split; done.
Qed.

Lemma validateEach_None i names dbs :
  config.validateEach i names dbs = None
  ↔ Forall config.acceptable dbs
    ∧ NoDup (config.Name <$> dbs)
    ∧ ∀ db, db ∈ dbs → names !! config.Name db ≠ Some true.
Proof.
  revert i names. induction dbs as [|db rest IH]; intros i names.
  - simpl. split; [|done]. intros _. split; [constructor|].
    split; [constructor|]. intros db Hin. by apply elem_of_nil in Hin.
  - rewrite validateEach_step, IH, fmap_cons, NoDup_cons, Forall_cons.
    split.
    + intros (Ha & Hfresh & Hf & Hnd & Hnames).
      split; [done|]. split; [split; [|done]|].
      * intros (x & Hx & Hin)%list_elem_of_fmap.
        apply (Hnames x Hin). rewrite <- Hx. apply lookup_insert_eq.
      * intros x [->|Hin]%elem_of_cons; [done|].
        intros Hx. apply (Hnames x Hin).
        destruct (decide (config.Name db = config.Name x)) as [Heq|Hne].
        -- rewrite <- Heq. apply lookup_insert_eq.
        -- by rewrite lookup_insert_ne.
    + intros ([Ha Hf] & [Hnot Hnd] & Hnames).
      split; [done|]. split; [apply Hnames; by left|].
      split; [done|]. split; [done|].
      intros x Hin.
      destruct (decide (config.Name db = config.Name x)) as [Heq|Hne].
      * exfalso. apply Hnot. rewrite Heq. by apply list_elem_of_fmap_2.
      * rewrite lookup_insert_ne by done. apply Hnames. by right.
Qed.

Lemma validateDatabases_None dbs :
  config.validateDatabases dbs = None
  ↔ Forall config.acceptable dbs ∧ NoDup (config.Name <$> dbs).
Proof.
  unfold config.validateDatabases.
  destruct dbs as [|db rest].
  - simpl. split; [|done]. intros _. split; constructor.
  - change (length (db :: rest) =? 0)%nat with false. cbv iota.
    rewrite validateEach_None. split; [tauto|].
    intros [Hf Hnd]. split; [done|]. split; [done|].
    intros x _. by rewrite lookup_empty.
Qed.

(** X17. validateDatabases accepts a list exactly when every entry has a
    non-empty name and one of the three supported types and no two
    entries share a name; the empty list is accepted. *)
Theorem validateDatabases_accepts_iff_names_distinct_and_types_known dbs :
  config.validateDatabases dbs = None
  ↔ Forall config.acceptable dbs ∧ NoDup (config.Name <$> dbs).
Proof. apply validateDatabases_None. Qed.



(** X19. On a validated configuration list, a registry returned by
    NewManager holds, for every entry, the instance built from that very
    entry under its name, and holds exactly as many instances as there
    are entries; no entry can fail on an unsupported database type. *)
Theorem validated_configs_each_get_their_own_instance configs rt rt' mgr :
  config.validateDatabases configs = None →
  NewManager E configs rt = (rt', Ok mgr) →
  (∀ cfg, cfg ∈ configs →
     ∃ db, Manager.Get mgr (config.Name cfg) = Some db
           ∧ Database.config db = cfg)
  ∧ size (Manager.databases mgr) = length configs
  ∧ ∀ cfg instance, cfg ∈ configs →
      ∃ dialector, dialectorFor cfg instance = inl dialector.
Proof.
  intros [Hf Hnd]%validateDatabases_None HN.
  split; [|split].
  - intros cfg Hin. apply list_elem_of_split in Hin as (l1 & l2 & ->).
    destruct (initAll_last l1 cfg l2 _ _ _ _ HN) as (db & Hg & Hc & _).
    + rewrite fmap_app, fmap_cons in Hnd.
      apply NoDup_app in Hnd as (_ & _ & Hnd). by apply NoDup_cons in Hnd as [? _].
    + eauto.
  - apply initAll_dom in HN. simpl in HN.
    rewrite dom_empty_L, union_empty_l_L in HN.
    rewrite <- size_dom, HN, size_list_to_set by done.
    by rewrite length_fmap.
  - intros cfg instance Hin.
    rewrite Forall_forall in Hf. destruct (Hf cfg Hin) as [_ Hs].
    unfold dialectorFor.
    destruct (decide (config.Type_ cfg = "mysql")); [eauto|].
    destruct (decide (config.Type_ cfg = "postgres")); [eauto|].
    destruct (decide (config.Type_ cfg = "sqlite")); [eauto|].
    destruct Hs as [?|[?|?]]; done.
Qed.

End registry_more.

(** ** The cache client *)

Section redis_more.

Variable E : database.Env.
Variable RE : redis.Env.

Lemma redis_New_cases cfg rt :
  redis.New RE cfg rt
  = match redis.client_Ping RE (redis.optionsOf cfg) context.Background with
    | Some err => (rt, database.Err ("failed to ping redis: " +:+ err))
    | None =>
        ((database.registerChecker
            (redis.RedisHealthChecker.asHealthChecker RE
               {| redis.RedisHealthChecker.name := config.RedisConfig.Name cfg;
                  redis.RedisHealthChecker.client := redis.optionsOf cfg |})
            rt).1,
         database.Ok {| redis.Redis.name := config.RedisConfig.Name cfg;
                        redis.Redis.client := redis.optionsOf cfg;
                        redis.Redis.config := cfg |})
    end.
Proof.
  unfold redis.New.
  destruct (redis.client_Ping RE (redis.optionsOf cfg) context.Background);
    [reflexivity|].
  unfold database.bind, database.registerChecker, database.ret.
  destruct (database.healthMgr rt); reflexivity.
Qed.


(** X21. The health manager keys checkers by name only.  When the cache
    is configured under the name of any database of the list, redis.New,
    called after database.NewManager as in main, replaces the checker
    that database registered: no key is added, every other checker is
    kept, and the database stays in the registry without a checker of
    its own.  Every completed Check round then reports the cache under
    that name, also after further registrations under other names, until
    a checker is registered under the name again. *)
Theorem cache_named_like_a_database_replaces_its_checker
    configs rcfg rt rt1 rt2 mgr r hm :
  database.healthMgr rt = Some hm →
  database.NewManager E configs rt = (rt1, database.Ok mgr) →
  redis.New RE rcfg rt1 = (rt2, database.Ok r) →
  config.RedisConfig.Name rcfg ∈ config.Name <$> configs →
  ∃ hm1 hm2 db,
    database.healthMgr rt1 = Some hm1
    ∧ database.healthMgr rt2 = Some hm2
    ∧ database.Manager.Get mgr (config.RedisConfig.Name rcfg) = Some db
    ∧ health.checkers hm1 !! config.RedisConfig.Name rcfg
      = Some (database.DatabaseHealthChecker.asHealthChecker E
                {| database.DatabaseHealthChecker.name :=
                     config.RedisConfig.Name rcfg;
                   database.DatabaseHealthChecker.db :=
                     database.Database.master db |})
    ∧ health.checkers hm2 !! config.RedisConfig.Name rcfg
      = Some (redis.RedisHealthChecker.asHealthChecker RE
                {| redis.RedisHealthChecker.name :=
                     config.RedisConfig.Name rcfg;
                   redis.RedisHealthChecker.client := redis.optionsOf rcfg |})
    ∧ dom (health.checkers hm2) = dom (health.checkers hm1)
    ∧ (∀ name, name ≠ config.RedisConfig.Name rcfg →
         health.checkers hm2 !! name = health.checkers hm1 !! name)
    ∧ ∀ later ctx now tasks st,
        Forall (λ c, health.HealthChecker.Name c
                     ≠ config.RedisConfig.Name rcfg) later →
        health.schedule (health.registered hm2 later) tasks →
        health.Check (health.registered hm2 later) ctx now tasks
        = Returned st →
        health.HealthStatus.Checks st !! config.RedisConfig.Name rcfg
        = Some (health.resultOf
                  (redis.RedisHealthChecker.Check RE
                     {| redis.RedisHealthChecker.name :=
                          config.RedisConfig.Name rcfg;
                        redis.RedisHealthChecker.client :=
                          redis.optionsOf rcfg |}
                     (health.deadline (health.registered hm2 later) ctx))).
Proof.
  intros Hh HM HR Hin. unfold database.NewManager in HM.
  destruct (initAll_linked E _ _ _ _ _ hm HM Hh) as (hm1 & Hh1 & Hl & _).
  { intros name d. simpl. rewrite lookup_empty. discriminate. }
  destruct (initAll_success E _ _ _ _ _ HM) as [Hget _].
  apply list_elem_of_fmap in Hin as (cfg & Hname & Hcfg).
  destruct (Hget cfg Hcfg) as (db & Hdb & _). rewrite <- Hname in Hdb.
  destruct (Hl _ _ Hdb) as [_ Hchk].
  rewrite redis_New_cases in HR.
  destruct (redis.client_Ping RE (redis.optionsOf rcfg) context.Background);
    [discriminate|].
  injection HR as <- _. unfold database.registerChecker. rewrite Hh1.
  set (c := {| redis.RedisHealthChecker.name := config.RedisConfig.Name rcfg;
               redis.RedisHealthChecker.client := redis.optionsOf rcfg |}).
  eexists hm1, _, db. split; [reflexivity|]. split; [reflexivity|].
  split; [exact Hdb|]. split; [exact Hchk|]. simpl.
  split; [apply lookup_insert_eq|]. split; [|split].
  - rewrite dom_insert_L. apply set_eq. intros x.
    rewrite elem_of_union, elem_of_singleton. split; [|tauto].
    intros [->|Hx]; [|exact Hx]. apply elem_of_dom. rewrite Hchk. eauto.
  - intros name Hne. by apply lookup_insert_ne.
  - intros later ctx now tasks st Hlater Hs Hrun.
    rewrite (Check_entry _ _ _ _ _ _
               (redis.RedisHealthChecker.asHealthChecker RE c) Hs Hrun).
    + reflexivity.
    + rewrite (registered_lookup_ne _ _ _ Hlater). simpl.
      apply lookup_insert_eq.
Qed.

(** X22. The readiness probe of the cache is at least as strict as its
    liveness probe: Check returns nil only if Ping does, an error of Ping
    is the error of Check, and Check returns nil exactly when the ping,
    the SET and the GET of the sentinel key all succeed. *)
Theorem RedisHealthChecker_Check_refines_Ping c ctx :
  (redis.RedisHealthChecker.Check RE c ctx = None →
   redis.RedisHealthChecker.Ping RE c ctx = None)
  ∧ (∀ err, redis.RedisHealthChecker.Ping RE c ctx = Some err →
            redis.RedisHealthChecker.Check RE c ctx = Some err)
  ∧ (redis.RedisHealthChecker.Check RE c ctx = None
     ↔ redis.client_Ping RE (redis.RedisHealthChecker.client c) ctx = None
       ∧ redis.client_Set RE (redis.RedisHealthChecker.client c) ctx
           "__health_check__" "ok" 10000000000 = None
       ∧ redis.client_Get RE (redis.RedisHealthChecker.client c) ctx
           "__health_check__" = None).
Proof.
  unfold redis.RedisHealthChecker.Check, redis.RedisHealthChecker.Ping.
  change (10 * redis.RedisHealthChecker.second)%Z with 10000000000%Z.
  destruct (redis.client_Ping RE _ _), (redis.client_Set RE _ _ _ _ _),
    (redis.client_Get RE _ _ _);
    repeat split; try done; intros (? & ? & ?); done.
Qed.

End redis_more.

(** ** The readiness handler of [handler/health] *)

Section handler_more.

Variable E : handler.Env.

Lemma allHealthy_spec l :
  handler.allHealthy l = true ↔ ∀ k v, (k, v) ∈ l → v ≠ "unhealthy".
Proof.
  induction l as [|[k v] l IH]; simpl.
  - split; [|done]. intros _ k v Hin. by apply elem_of_nil in Hin.
  - destruct (decide (v = "unhealthy")) as [->|Hne].
    + split; [done|]. intros H. exfalso. apply (H k "unhealthy"); [by left|done].
    + rewrite IH. split.
      * intros H k' v' [[= -> ->]|Hin]%elem_of_cons; eauto.
      * intros H k' v' Hin. apply (H k'). by right.
Qed.

(** The verdict of the loop is the same for every enumeration order. *)
Lemma allHealthy_order l1 l2 :
  l1 ≡ₚ l2 → handler.allHealthy l1 = handler.allHealthy l2.
Proof.
  intros Hp.
  destruct (handler.allHealthy l1) eqn:H1, (handler.allHealthy l2) eqn:H2;
    try done.
  - rewrite allHealthy_spec in H1. assert (handler.allHealthy l2 = true);
      [|congruence].
    apply allHealthy_spec. intros k v Hin. apply (H1 k). by rewrite Hp.
  - rewrite allHealthy_spec in H2. assert (handler.allHealthy l1 = true);
      [|congruence].
    apply allHealthy_spec. intros k v Hin. apply (H2 k). by rewrite <- Hp.
Qed.

Lemma Readiness_cases h c :
  handler.allHealthy
    (map_to_list (<["redis" := handler.redisCheck E h c]>
                    (<["database" := handler.databaseCheck E h c]>
                       (∅ : gmap string string))))
  = true
  ↔ handler.databaseCheck E h c ≠ "unhealthy"
    ∧ handler.redisCheck E h c ≠ "unhealthy".
Proof.
  rewrite allHealthy_spec. split.
  - intros H. split.
    + apply (H "database"). apply elem_of_map_to_list.
      rewrite lookup_insert_ne by done. apply lookup_insert_eq.
    + apply (H "redis"). apply elem_of_map_to_list. apply lookup_insert_eq.
  - intros [Hd Hr] k v Hin%elem_of_map_to_list.
    apply lookup_insert_Some in Hin as [[_ <-]|[_ Hin]]; [done|].
    apply lookup_insert_Some in Hin as [[_ <-]|[_ Hin]]; [done|].
    by rewrite lookup_empty in Hin.
Qed.

Lemma Readiness_eq h c :
  handler.Readiness E h c
  = if decide (handler.databaseCheck E h c = "unhealthy"
               ∨ handler.redisCheck E h c = "unhealthy")
    then {| response.HTTPStatus := 503;
            response.Body :=
              response.Bare
                {| response.status := "not_ready";
                   response.checks :=
                     Some (<["redis" := handler.redisCheck E h c]>
                             (<["database" := handler.databaseCheck E h c]>
                                ∅)) |} |}
    else response.Success c
           {| response.status := "ready";
              response.checks :=
                Some (<["redis" := handler.redisCheck E h c]>
                        (<["database" := handler.databaseCheck E h c]> ∅)) |}.
Proof.
  pose proof (Readiness_cases h c) as Hcases.
  unfold handler.Readiness.
  set (checks := <["redis" := handler.redisCheck E h c]>
                   (<["database" := handler.databaseCheck E h c]>
                      (∅ : gmap string string))) in *.
  clearbody checks.
  destruct (handler.allHealthy (map_to_list checks)).
  - destruct (proj1 Hcases eq_refl) as [Hd Hr].
    destruct (decide _) as [[?|?]|_]; [contradiction..|reflexivity].
  - destruct (decide _) as [_|Hno]; [reflexivity|].
    exfalso. assert (Hft : false = true); [|discriminate Hft].
    apply Hcases. split; intros ?; apply Hno; [by left|by right].
Qed.

(** X23. Readiness always reports exactly the two checks "database" and
    "redis". It answers 503 exactly when one of them is "unhealthy", with
    the bare body "not_ready"; otherwise it answers 200 with the body
    "ready" inside the success envelope. A dependency that is not
    configured does not make the service unready. *)
Theorem Readiness_answers_503_iff_a_check_is_unhealthy h c :
  (response.HTTPStatus (handler.Readiness E h c) = 503%Z
   ↔ handler.databaseCheck E h c = "unhealthy"
     ∨ handler.redisCheck E h c = "unhealthy")
  ∧ (response.HTTPStatus (handler.Readiness E h c) ≠ 503%Z →
     handler.Readiness E h c
     = response.Success c
         {| response.status := "ready";
            response.checks :=
              Some (<["redis" := handler.redisCheck E h c]>
                      (<["database" := handler.databaseCheck E h c]> ∅)) |})
  ∧ (response.HTTPStatus (handler.Readiness E h c) = 503%Z →
     response.Body (handler.Readiness E h c)
     = response.Bare
         {| response.status := "not_ready";
            response.checks :=
              Some (<["redis" := handler.redisCheck E h c]>
                      (<["database" := handler.databaseCheck E h c]> ∅)) |})
  ∧ (handler.db h = None → handler.redis h = None →
     response.HTTPStatus (handler.Readiness E h c) = 200%Z).
Proof.
  rewrite Readiness_eq.
  set (checks := <["redis" := handler.redisCheck E h c]>
                   (<["database" := handler.databaseCheck E h c]>
                      (∅ : gmap string string))).
  clearbody checks.
  destruct (decide _) as [Hbad|Hok]; unfold response.Success;
    cbn [response.HTTPStatus response.Body].
  - split; [split; [intros _; exact Hbad|reflexivity]|].
    split; [intros Hne; by destruct Hne|]. split; [reflexivity|].
    intros Hd Hr. exfalso. revert Hbad.
    unfold handler.databaseCheck, handler.redisCheck. rewrite Hd, Hr.
    intros [Hx|Hx]; discriminate Hx.
  - split; [split; [intros Hx; discriminate Hx|intros Hx; contradiction]|].
    split; [reflexivity|]. split; [intros Hx; discriminate Hx|].
    reflexivity.
Qed.

(** X24. Readiness looks at one database only, the one registered under
    the name "default": the database check is "unhealthy" exactly when
    that instance exists and DB() or the ping on its master fails. On a
    registry built by NewManager from configurations none of which is
    named "default", the database is reported "not_configured" whatever
    the state of the configured databases. *)
Theorem Readiness_probes_only_the_database_named_default h c :
  (handler.databaseCheck E h c = "unhealthy"
   ↔ ∃ mgr d,
       handler.db h = Some mgr
       ∧ database.Manager.Get mgr "default" = Some d
       ∧ (database.gorm_DB (handler.sql E)
            (gorm.ConnPool (database.Database.master d)) ≠ None
          ∨ database.sql_PingContext (handler.sql E)
              (gorm.ConnPool (database.Database.master d))
              context.Background ≠ None))
  ∧ ∀ E' configs rt rt' mgr,
      database.NewManager E' configs rt = (rt', database.Ok mgr) →
      "default" ∉ config.Name <$> configs →
      handler.db h = Some mgr →
      handler.databaseCheck E h c = "not_configured"
      ∧ (handler.redisCheck E h c ≠ "unhealthy" →
         response.HTTPStatus (handler.Readiness E h c) = 200%Z).
Proof.
  split.
  - unfold handler.databaseCheck.
    destruct (handler.db h) as [mgr|];
      [|split; [intros Hx; discriminate Hx|]; intros (?&?&Hx&_); discriminate Hx].
    destruct (database.Manager.Get mgr "default") as [d|] eqn:Hg;
      [|split; [intros Hx; discriminate Hx|];
        intros (?&?&[= <-]&Hx&_); rewrite Hg in Hx; discriminate Hx].
    cbn [database.Database.Master gorm.WithContext gorm.ConnPool].
    destruct (database.gorm_DB _ _) eqn:Hdb.
    { split; [|reflexivity]. intros _. exists mgr, d.
      split; [reflexivity|]. split; [exact Hg|]. left. rewrite Hdb.
      discriminate. }
    destruct (database.sql_PingContext _ _ _) eqn:Hp.
    { split; [|reflexivity]. intros _. exists mgr, d.
      split; [reflexivity|]. split; [exact Hg|]. right. rewrite Hp.
      discriminate. }
    split; [intros Hx; discriminate Hx|].
    intros (m' & d' & [= <-] & Hg' & H). rewrite Hg in Hg'.
    injection Hg' as <-. destruct H as [H|H]; contradiction.
  - intros E' configs rt rt' mgr HN Hnot Hh.
    assert (Hget : database.Manager.Get mgr "default" = None).
    { apply initAll_dom in HN. simpl in HN.
      rewrite dom_empty_L, union_empty_l_L in HN.
      unfold database.Manager.Get. apply not_elem_of_dom. rewrite HN.
      by rewrite elem_of_list_to_set. }
    assert (Hnc : handler.databaseCheck E h c = "not_configured").
    { unfold handler.databaseCheck. by rewrite Hh, Hget. }
    split; [exact Hnc|]. intros Hr.
    rewrite Readiness_eq.
    destruct (decide _) as [[Hx|Hx]|_].
    + rewrite Hnc in Hx. discriminate Hx.
    + contradiction.
    + reflexivity.
Qed.

End handler_more.

(** ** The further properties, on concrete worlds *)

Lemma sample_built :
  database.New sample.degraded (sample.dbConfig "main" ["s1"; "s2"])
    sample.startup
  = (sample.built_runtime, database.Ok sample.built_database).
Proof. vm_compute. reflexivity. Qed.

Lemma DatabaseHealthChecker_Check_refines_Ping_witness :
  database.DatabaseHealthChecker.Check (handler.sql sample.outage)
    {| database.DatabaseHealthChecker.name := "main";
       database.DatabaseHealthChecker.db := sample.pool 0 |}
    context.Background
  = Some "database ping failed: driver: bad connection".
Proof.
  apply (DatabaseHealthChecker_Check_refines_Ping (handler.sql sample.outage)).
  reflexivity.
Defined.

Lemma New_opens_fresh_distinct_pools_witness :
  NoDup (gorm.ConnPool <$> database.handles sample.built_database)
  ∧ database.nextPool sample.built_runtime = 2%N.
Proof.
  destruct (New_opens_fresh_distinct_pools _ _ _ _ _ sample_built)
    as (_ & Hnd & Hn & _).
  split; [exact Hnd|]. rewrite Hn. vm_compute. reflexivity.
Defined.



Lemma New_without_reachable_slave_serves_reads_from_master_witness :
  ∃ rt' db,
    database.New (sample.sluggish ["s1"; "s2"] [])
      (sample.dbConfig "main" ["s1"; "s2"]) sample.startup
    = (rt', database.Ok db)
    ∧ database.Database.slaves db = []
    ∧ length (database.warnings rt') = 3.
Proof.
  destruct (New_without_reachable_slave_serves_reads_from_master
              (sample.sluggish ["s1"; "s2"] [])
              (sample.dbConfig "main" ["s1"; "s2"])
              sample.startup) as (rt' & db & HN & Hs & Hw & _).
  - vm_compute. reflexivity.
  - reflexivity.
  - vm_compute. reflexivity.
  - repeat constructor; vm_compute; discriminate.
  - exists rt', db. split; [exact HN|]. split; [exact Hs|].
    rewrite Hw. vm_compute. reflexivity.
Defined.

Lemma New_registers_a_master_backed_checker_witness :
  ∃ hm', database.healthMgr sample.built_runtime = Some hm'
         ∧ dom (health.checkers hm') = {["main"]}
         ∧ ∀ ctx now tasks st,
             health.schedule
               (health.registered hm'
                  [sample.steady "cache" (Returned None)]) tasks →
             health.Check
               (health.registered hm'
                  [sample.steady "cache" (Returned None)]) ctx now tasks
             = Returned st →
             ∃ r, health.HealthStatus.Checks st !! "main" = Some r
                  ∧ health.CheckResult.Status r = "ok".
Proof.
  destruct (New_registers_a_master_backed_checker _ _ _ _ _
              (health.NewManager sample.healthConfig) sample_built eq_refl)
    as (hm' & Hh & Hc & Hround).
  exists hm'. split; [exact Hh|]. split.
  { rewrite Hc. vm_compute. reflexivity. }
  intros ctx now tasks st Hs Hrun.
  destruct (Hround [sample.steady "cache" (Returned None)] ctx now tasks st)
    as (r & Hr & Hok).
  - constructor; [|constructor]. intros Hn. vm_compute in Hn.
    discriminate Hn.
  - exact Hs.
  - exact Hrun.
  - exists r. split; [exact Hr|]. apply Hok. repeat split.
Defined.

Lemma Database_Close_closes_every_reachable_pool_witness :
  ∃ rt', database.Database.Close sample.degraded sample.built_database
           sample.built_runtime = (rt', database.Ok None)
         ∧ database.closedIn rt' (sample.pool 0)
         ∧ database.closedIn rt' (sample.pool 1).
Proof.
  destruct (Database_Close_closes_every_reachable_pool sample.degraded
              sample.built_database sample.built_runtime)
    as (rt' & HC & _ & Hcl).
  exists rt'. split; [exact HC|]. split.
  - apply Hcl; [|reflexivity]. vm_compute. apply elem_of_cons. by left.
  - apply Hcl; [|reflexivity]. vm_compute.
    apply elem_of_cons. right. apply elem_of_cons. by left.
Defined.

Lemma Manager_Close_closes_all_and_keeps_checkers_witness :
  ∃ rt', database.Manager.Close sample.world sample.main_only
           (map_to_list (database.Manager.databases sample.main_only))
           sample.after_main = (rt', database.Ok None)
         ∧ database.healthMgr rt' = database.healthMgr sample.after_main.
Proof.
  destruct (Manager_Close_closes_all_and_keeps_checkers sample.world
              sample.main_only
              (map_to_list (database.Manager.databases sample.main_only))
              sample.after_main) as (rt' & HC & _ & Hh & _).
  - unfold database.Manager.iteration. reflexivity.
  - exists rt'. split; [exact HC|exact Hh].
Defined.

Lemma NewManager_Get_is_nil_exactly_off_the_configured_names_witness :
  database.Manager.Get sample.main_only "default" = None.
Proof.
  apply (NewManager_Get_is_nil_exactly_off_the_configured_names sample.world
           [sample.dbConfig "main" ["s1"]] sample.startup sample.after_main
           sample.main_only "default" sample_main_constructed).
  vm_compute. intros Hin. apply elem_of_cons in Hin as [Hin|Hin].
  - discriminate Hin.
  - by apply elem_of_nil in Hin.
Defined.

Lemma sample_twice_constructed :
  database.NewManager (sample.env [] []) sample.twice sample.startup
  = (sample.twice_runtime, database.Ok sample.twice_registry).
Proof. vm_compute. reflexivity. Qed.

Lemma NewManager_last_configuration_of_a_name_wins_witness :
  ∃ db, database.Manager.Get sample.twice_registry "main" = Some db
        ∧ database.Database.config db = sample.dbConfig "main" ["s1"]
        ∧ database.Database.config db ≠ sample.dbConfig "main" [].
Proof.
  destruct (NewManager_last_configuration_of_a_name_wins (sample.env [] [])
              [sample.dbConfig "main" []] (sample.dbConfig "main" ["s1"]) []
              sample.startup sample.twice_runtime sample.twice_registry
              sample_twice_constructed)
    as (db & Hg & Hc & _).
  - intros Hin. by apply elem_of_nil in Hin.
  - exists db. split; [exact Hg|]. split; [exact Hc|].
    rewrite Hc. intros Heq. vm_compute in Heq. discriminate Heq.
Defined.

Lemma NewManager_registers_exactly_the_registry_names_witness :
  ∃ hm', database.healthMgr sample.after_main = Some hm'
         ∧ dom (health.checkers hm')
           = dom (database.Manager.databases sample.main_only).
Proof.
  destruct (NewManager_registers_exactly_the_registry_names sample.world
              _ _ _ _ sample_main_constructed) as [_ Hreg].
  destruct (Hreg (health.NewManager sample.healthConfig) sample.main_only
              eq_refl eq_refl) as (hm' & Hh & Hdom & _).
  exists hm'. split; [exact Hh|]. rewrite Hdom. simpl.
  rewrite dom_empty_L. apply union_empty_l_L.
Defined.

Lemma validateDatabases_accepts_iff_names_distinct_and_types_known_witness :
  NoDup (config.Name <$> sample.configs).
Proof.
  apply (validateDatabases_accepts_iff_names_distinct_and_types_known
           sample.configs).
  vm_compute. reflexivity.
Defined.


Lemma validated_configs_each_get_their_own_instance_witness :
  size (database.Manager.databases sample.main_only) = 1.
Proof.
  destruct (validated_configs_each_get_their_own_instance sample.world
              [sample.dbConfig "main" ["s1"]] sample.startup sample.after_main
              sample.main_only) as (_ & Hsize & _).
  - vm_compute. reflexivity.
  - exact sample_main_constructed.
  - exact Hsize.
Defined.


Lemma sample_pair_constructed :
  database.NewManager sample.degraded sample.pair sample.startup
  = (sample.pair_runtime, database.Ok sample.pair_registry).
Proof. vm_compute. reflexivity. Qed.

Lemma sample_pair_cached :
  redis.New sample.cache_up sample.cacheConfig sample.pair_runtime
  = (sample.pair_cached, database.Ok sample.cache_client).
Proof. vm_compute. reflexivity. Qed.

Lemma cache_named_like_a_database_replaces_its_checker_witness :
  ∃ hm2 db,
    database.healthMgr sample.pair_cached = Some hm2
    ∧ database.Manager.Get sample.pair_registry "main" = Some db
    ∧ health.checkers hm2 !! "main"
      = Some (redis.RedisHealthChecker.asHealthChecker sample.cache_up
                {| redis.RedisHealthChecker.name := "main";
                   redis.RedisHealthChecker.client :=
                     redis.optionsOf sample.cacheConfig |}).
Proof.
  destruct (cache_named_like_a_database_replaces_its_checker sample.degraded
              sample.cache_up sample.pair sample.cacheConfig sample.startup
              sample.pair_runtime sample.pair_cached sample.pair_registry
              sample.cache_client (health.NewManager sample.healthConfig)
              eq_refl sample_pair_constructed sample_pair_cached)
    as (hm1 & hm2 & db & _ & Hh2 & Hg & _ & Hc & _).
  - vm_compute. apply elem_of_cons. left. reflexivity.
  - exists hm2, db. split; [exact Hh2|]. split; [exact Hg|]. exact Hc.
Defined.

Lemma RedisHealthChecker_Check_refines_Ping_witness :
  redis.RedisHealthChecker.Check sample.cache_down
    {| redis.RedisHealthChecker.name := "main";
       redis.RedisHealthChecker.client := redis.optionsOf sample.cacheConfig |}
    context.Background
  = Some "redis ping failed: dial tcp: connection refused".
Proof.
  apply (RedisHealthChecker_Check_refines_Ping sample.cache_down).
  reflexivity.
Defined.

Lemma Readiness_answers_503_iff_a_check_is_unhealthy_witness :
  response.HTTPStatus
    (handler.Readiness sample.cache_outage
       (handler.NewHandler None (Some sample.cache_client)) sample.request)
  = 503%Z
  ∧ response.HTTPStatus
      (handler.Readiness sample.outage (handler.NewHandler None None)
         sample.request) = 200%Z.
Proof.
  split.
  - apply (proj1 (Readiness_answers_503_iff_a_check_is_unhealthy
                    sample.cache_outage
                    (handler.NewHandler None (Some sample.cache_client))
                    sample.request)).
    right. reflexivity.
  - apply (Readiness_answers_503_iff_a_check_is_unhealthy sample.outage
             (handler.NewHandler None None) sample.request); reflexivity.
Defined.

Lemma Readiness_probes_only_the_database_named_default_witness :
  handler.databaseCheck sample.outage
    (handler.NewHandler (Some sample.main_only) None) sample.request
  = "not_configured"
  ∧ response.HTTPStatus
      (handler.Readiness sample.outage
         (handler.NewHandler (Some sample.main_only) None) sample.request)
    = 200%Z.
Proof.
  destruct (Readiness_probes_only_the_database_named_default sample.outage
              (handler.NewHandler (Some sample.main_only) None) sample.request)
    as [_ Hdefault].
  destruct (Hdefault sample.world [sample.dbConfig "main" ["s1"]]
              sample.startup sample.after_main sample.main_only
              sample_main_constructed) as [Hnc H200].
  - vm_compute. intros Hin. apply elem_of_cons in Hin as [Hin|Hin].
    + discriminate Hin.
    + by apply elem_of_nil in Hin.
  - reflexivity.
  - split; [exact Hnc|]. apply H200. vm_compute. discriminate.
Defined.

(** ** The cache configuration: validation and the addresses dialled *)


